(** * standup-irc: the bot's event listeners and command table (app.js)

    A shallow embedding of [app.js]: the listeners the bot registers on its
    IRC client ([error], [invite], [kick], [message], [notice]) and the
    [commands] table they dispatch into, and the merge of the configuration
    at start-up, followed by the properties of the dispatch protocol.

    JavaScript strings are modelled as [string], one [ascii] per code unit, so
    the model covers the code units 0..255 (Latin-1).  Every call the bot
    makes on a collaborator (the IRC client, the logger, the database, the
    authorization manager, the status API) is recorded, in order, in a trace
    of effects; a listener or handler is a computation that yields its trace
    and either completes normally or throws. *)

From Stdlib Require Import ZArith List Ascii String Bool Lia.
From Stdlib Require Import DecimalString DecimalPos DecimalZ Permutation Sorted.
Import ListNotations.

Local Open Scope list_scope.
Local Open Scope bool_scope.
Local Open Scope string_scope.

(** ** JavaScript primitives used by app.js *)

Module Js.

(** The characters [\s] and [String.prototype.trim] treat as white space,
    among the code units 0..255: TAB, LF, VT, FF, CR, SPACE and NBSP. *)
Definition isWhiteSpace (c : ascii) : bool :=
  existsb (Ascii.eqb c) ["009"; "010"; "011"; "012"; "013"; " "; "160"]%char.

(** The line terminators [.] refuses to match, among the code units 0..255. *)
Definition isLineTerminator (c : ascii) : bool :=
  existsb (Ascii.eqb c) ["010"; "013"]%char.

Fixpoint trimStart (s : string) : string :=
  match s with
  | String c r => if isWhiteSpace c then trimStart r else s
  | EmptyString => EmptyString
  end.

Fixpoint trimEnd (s : string) : string :=
  match s with
  | String c r =>
      let r' := trimEnd r in
      if isWhiteSpace c && (r' =? "") then "" else String c r'
  | EmptyString => EmptyString
  end.

(** [s.trim()] *)
Definition trim (s : string) : string := trimEnd (trimStart s).

(** [s[0]]: [None] stands for [undefined]. *)
Definition charAt0 (s : string) : option ascii :=
  match s with
  | String c _ => Some c
  | EmptyString => None
  end.

(** [s[0] === c] *)
Definition first_is (c : ascii) (s : string) : bool :=
  match charAt0 s with
  | Some d => Ascii.eqb d c
  | None => false
  end.

(** [s.slice(1)] on a string. *)
Definition slice1 (s : string) : string :=
  match s with
  | String _ r => r
  | EmptyString => EmptyString
  end.

(** [s.split(sep)] for a one-character separator: never the empty array. *)
Fixpoint split (sep : ascii) (s : string) : list string :=
  match s with
  | EmptyString => [""]
  | String c r =>
      if Ascii.eqb c sep then "" :: split sep r
      else match split sep r with
           | t :: ts => String c t :: ts
           | [] => [String c ""]
           end
  end.

(** [a.join(sep)] *)
Definition join (sep : string) (a : list string) : string := String.concat sep a.

Definition lower_char (c : ascii) : ascii :=
  let n := nat_of_ascii c in
  if ((65 <=? n) && (n <=? 90)
      || (192 <=? n) && (n <=? 222) && negb (n =? 215))%nat
  then ascii_of_nat (n + 32)
  else c.

(** [s.toLowerCase()] on the code units 0..255. *)
Fixpoint toLowerCase (s : string) : string :=
  match s with
  | String c r => String (lower_char c) (toLowerCase r)
  | EmptyString => EmptyString
  end.

(** Truthiness of a string: every string but the empty one. *)
Definition truthy (s : string) : bool := negb (s =? "").

Definition digit_value (c : ascii) : option Z :=
  let n := nat_of_ascii c in
  if ((48 <=? n) && (n <=? 57))%nat then Some (Z.of_nat (n - 48)) else None.

(** The value of the longest prefix of decimal digits; [acc] is the value
    read so far, [None] while no digit has been read. *)
Fixpoint leading_digits (s : string) (acc : option Z) : option Z :=
  match s with
  | String c r =>
      match digit_value c with
      | Some d =>
          leading_digits r
            (Some (10 * match acc with Some a => a | None => 0 end + d)%Z)
      | None => acc
      end
  | EmptyString => acc
  end.

(** [parseInt(s, 10)]: leading white space is skipped, one sign is read, then
    the longest run of decimal digits; [None] stands for [NaN].  The result is
    kept as an exact integer: it is the number JavaScript computes as long
    as its magnitude is at most 2^53, beyond which JavaScript rounds to a
    double.  Whether the result is [NaN] does not depend on the magnitude. *)
Definition parseInt10 (s : string) : option Z :=
  match trimStart s with
  | String "-" r => option_map Z.opp (leading_digits r None)
  | String "+" r => leading_digits r None
  | t => leading_digits t None
  end.

(** [isNaN(n)] for the result of [parseInt10]. *)
Definition isNaN (n : option Z) : bool :=
  match n with
  | Some _ => false
  | None => true
  end.

(** The decimal rendering [+] gives an integer when it is appended to a
    string: all its digits, which is what JavaScript prints for an integer
    of magnitude below 10^21 (from there on it prints an exponent). *)
Definition string_of_number (z : Z) : string :=
  NilZero.string_of_int (Z.to_int z).

(** [needle] is a prefix of [s]; what follows it. *)
Fixpoint strip_prefix (needle s : string) : option string :=
  match needle, s with
  | EmptyString, _ => Some s
  | String a n', String b s' => if Ascii.eqb a b then strip_prefix n' s' else None
  | String _ _, EmptyString => None
  end.

Definition no_line_terminator (s : string) : bool :=
  forallb (fun c => negb (isLineTerminator c)) (list_ascii_of_string s).

End Js.

(** ** Values handed over by collaborators *)

(** The values a collaborator can hand to a callback, as far as the handlers
    tell them apart.  Numbers are integers; arrays are not modelled. *)
#[warnings="-register-all"]
Inductive JsValue : Type :=
| JUndefined
| JNull
| JBool (b : bool)
| JNumber (n : Z)
| JString (s : string)
| JObject (fields : list (string * JsValue)).

(** Truthiness, as [if (v)] and [!v] read it. *)
Definition to_boolean (v : JsValue) : bool :=
  match v with
  | JUndefined | JNull => false
  | JBool b => b
  | JNumber n => negb (n =? 0)%Z
  | JString s => Js.truthy s
  | JObject _ => true
  end.

(** The string [+] and [JSON.parse] make of a value. *)
Definition to_string (v : JsValue) : string :=
  match v with
  | JUndefined => "undefined"
  | JNull => "null"
  | JBool true => "true"
  | JBool false => "false"
  | JNumber n => Js.string_of_number n
  | JString s => s
  | JObject _ => "[object Object]"
  end.

(** The last binding of [name] in [fields]: a later key overrides an earlier
    one. *)
Fixpoint field (name : string) (fields : list (string * JsValue)) : JsValue :=
  match fields with
  | (k, v) :: rest =>
      match field name rest with
      | JUndefined => if k =? name then v else JUndefined
      | later => later
      end
  | [] => JUndefined
  end.

(** [v.name] for a name no prototype defines (as [error], [id] and the
    section and member names of the configuration; not [constructor],
    [toString] and the other names of Object.prototype, which an object
    inherits): [None] when the read raises a TypeError ([v] is [undefined]
    or [null]). *)
Definition get (v : JsValue) (name : string) : option JsValue :=
  match v with
  | JUndefined | JNull => None
  | JObject fields => Some (field name fields)
  | JBool _ | JNumber _ | JString _ => Some JUndefined
  end.

(** [v === n] for a number literal [n]. *)
Definition is_number (n : Z) (v : JsValue) : bool :=
  match v with
  | JNumber m => (m =? n)%Z
  | _ => false
  end.

(** The error object the IRC client emits with its [error] event. *)
Record IrcError : Type := mkIrcError {
  rawCommand : string;
  stack : option string   (* the own property [stack], when there is one *)
}.

(** ** Effects *)

(** The function passed to [utils.ifAuthorized], with the variables it
    closes over. *)
Inductive AuthorizedCallback : Type :=
| DeleteAuthorized (user channel : string) (args : list string)
| StatusAuthorized (user channel : string) (args : list string)
| UpdateAuthorized (user channel : string) (args : list string).

(** The listener registered with [response.once('ok', ...)]. *)
Inductive OkCallback : Type :=
| DeleteOk (channel : string) (id : Z)
| StatusOk (channel : string)
| UpdateOk (channel : string).

(** The listener registered with [response.once('error', ...)]. *)
Inductive ErrorCallback : Type :=
| DeleteError (channel : string)
| StatusError (channel : string)
| UpdateError (channel : string).

(** The listener registered with [a.once('authorization', ...)]. *)
Inductive TrustCallback : Type :=
| TrustReply (channel : string) (args : list string).

(** One call on a collaborator. *)
Inductive Effect : Type :=
| Say (target text : string)                 (* irc_client.say *)
| Action (target text : string)              (* irc_client.action *)
| Join (channel : string)                    (* irc_client.join *)
| Part (channel : string)                    (* irc_client.part *)
| LoggerInfo (text : string)                 (* logger.info *)
| LoggerError (text : string)                (* logger.error of a string *)
| LoggerErrorObject (error : IrcError)       (* logger.error of the error *)
| PgQuery (text : string) (values : list string)
| IfAuthorized (user channel : string) (callback : AuthorizedCallback)
| AuthmanNotice (from text : string)         (* authman.notice *)
| AuthmanCheckUser (args : list string)      (* authman.checkUser *)
| OnceAuthorization (callback : TrustCallback)
| ApiStatusDelete (id : Z) (user : string)   (* api.status.delete *)
| ApiStatusCreate (user project status : string)
| ApiUserUpdate (user what value who : string)
| OnceOk (callback : OkCallback)
| OnceError (callback : ErrorCallback).

Inductive Exception : Type :=
| TypeError
| SyntaxError.

Inductive Completion (A : Type) : Type :=
| Normal (a : A)
| Throw (e : Exception).

Arguments Normal {A} a.
Arguments Throw {A} e.

(** A computation: the effects it performed, in order, and how it completed.
    Nothing catches: app.js holds no [try]. *)
Definition M (A : Type) : Type := list Effect * Completion A.

Definition ret {A : Type} (a : A) : M A := ([], Normal a).

Definition throw {A : Type} (e : Exception) : M A := ([], Throw e).

Definition bind {A B : Type} (m : M A) (k : A -> M B) : M B :=
  match m with
  | (w, Normal a) => let (w', r) := k a in ((w ++ w')%list, r)
  | (w, Throw e) => (w, Throw e)
  end.

Definition perform (e : Effect) : M unit := ([e], Normal tt).

Notation "x <- c1 ;; c2" := (bind c1 (fun x => c2))
  (at level 61, c1 at next level, right associativity).
Notation "c1 ;; c2" := (bind c1 (fun _ => c2))
  (at level 61, right associativity).

(** [_.each(xs, f)] *)
Fixpoint each {A : Type} (xs : list A) (f : A -> M unit) : M unit :=
  match xs with
  | x :: rest => f x ;; each rest f
  | [] => ret tt
  end.

Definition effects {A : Type} (m : M A) : list Effect := fst m.

Definition completion {A : Type} (m : M A) : Completion A := snd m.

(** The computation threw. *)
Definition throws {A : Type} (m : M A) : bool :=
  match completion m with
  | Throw _ => true
  | Normal _ => false
  end.

Definition is_status_service_call (e : Effect) : bool :=
  match e with
  | ApiStatusDelete _ _ | ApiStatusCreate _ _ _ | ApiUserUpdate _ _ _ _ => true
  | _ => false
  end.

Definition is_authman_notice (e : Effect) : bool :=
  match e with
  | AuthmanNotice _ _ => true
  | _ => false
  end.

(** The double quote, as a one-character string. *)
Definition dquote : string := String "034" EmptyString.

(** ** The address pattern of the message listener *)

(** The tail of the pattern, a lazy run of white space and then a capture of
    any characters up to the end of the input, on what follows the separator:
    the lazy run gives up as little white space as lets the capture reach the
    end of the input, and the capture's dot matches no line terminator.  The
    result is the capture. *)
Fixpoint lazy_space_then_rest (s : string) : option string :=
  match s with
  | String c r =>
      if Js.no_line_terminator s then Some s
      else if Js.isWhiteSpace c then lazy_space_then_rest r
      else None
  | EmptyString => Some EmptyString
  end.

(** [targetMessageRegex.exec(message)], as [match[1]]; [None] when there is
    no match.  The pattern is anchored at both ends: the escaped nickname, one
    of [:] and [,], then the tail above.  [utils.escapeRegExp] is not part of
    app.js; by the spec a message in scope begins with the nickname itself,
    so the escaped nickname is taken to match the nickname and nothing
    else. *)
Definition targetMessageRegex_exec (nick message : string) : option string :=
  match Js.strip_prefix nick message with
  | Some (String c rest) =>
      if Ascii.eqb c ":" || Ascii.eqb c "," then lazy_space_then_rest rest
      else None
  | _ => None
  end.

(** ** Collaborators that are not part of app.js *)

Module Utils.

(** [t] opens a quoted argument. *)
Definition opens_quote (t : string) : bool := Js.first_is "034" t.

Fixpoint closes_quote (t : string) : bool :=
  match t with
  | String c EmptyString => Ascii.eqb c "034"
  | String _ r => closes_quote r
  | EmptyString => false
  end.

Fixpoint drop_last (t : string) : string :=
  match t with
  | String _ EmptyString => EmptyString
  | String c r => String c (drop_last r)
  | EmptyString => EmptyString
  end.

(** The text between the quotes of a quoted run. *)
Definition unquote (t : string) : string := drop_last (Js.slice1 t).

(** [pending] holds, latest first, the tokens of a quoted run that has not
    been closed yet. *)
Fixpoint parse (pending : option (list string)) (tokens : list string)
  : list string :=
  match tokens with
  | t :: rest =>
      match pending with
      | None =>
          if opens_quote t then
            if closes_quote (Js.slice1 t) then unquote t :: parse None rest
            else parse (Some [t]) rest
          else t :: parse None rest
      | Some run =>
          if closes_quote t
          then unquote (Js.join " " (rev (t :: run))) :: parse None rest
          else parse (Some (t :: run)) rest
      end
  | [] =>
      match pending with
      | Some run => rev run
      | None => []
      end
  end.

(** Modelled from the spec: [utils.parseArgs] is not part of app.js.  The
    spec's argument parser takes the tokens of a command line and yields the
    arguments in order, joining the tokens enclosed in a quoting convention
    into one argument; quoting that is never closed leaves the tokens as they
    are, and tokens without quoting come back unchanged.  The convention
    taken here is the double quote.  The listeners below take the parser as
    a parameter; this one instantiates them in the examples. *)
Definition parseArgs (tokens : list string) : list string := parse None tokens.

End Utils.

(** ** The bot *)

(** [commands[name].func]: called with the user, the channel, the message
    and the parsed arguments. *)
Definition Handler : Type := string -> string -> string -> list string -> M unit.

(** An entry of [commands]. *)
Record Descriptor : Type := mkDescriptor {
  help : option string;
  usage : option string;
  func : Handler
}.

(** What [commands[name]] evaluates to. *)
Inductive Property : Type :=
| Own (d : Descriptor)   (* an entry of the table *)
| Inherited              (* a member of Object.prototype: truthy, without [func] *)
| Undefined.

(** The property names every object inherits from [Object.prototype]. *)
Definition Object_prototype_names : list string :=
  [ "constructor"; "toString"; "toLocaleString"; "valueOf"; "hasOwnProperty";
    "isPrototypeOf"; "propertyIsEnumerable"; "__defineGetter__";
    "__defineSetter__"; "__lookupGetter__"; "__lookupSetter__"; "__proto__" ].

Definition inherited_name (name : string) : bool :=
  existsb (String.eqb name) Object_prototype_names.

(** One property of an object literal put into the object built so far: a
    key written twice keeps its first place and its last value. *)
Fixpoint put {V : Type} (k : string) (v : V) (o : list (string * V))
  : list (string * V) :=
  match o with
  | (k', v') :: rest => if k' =? k then (k, v) :: rest else (k', v') :: put k v rest
  | [] => [(k, v)]
  end.

(** The object an object literal evaluates to. *)
Definition object_of {V : Type} (literal : list (string * V)) : list (string * V) :=
  fold_left (fun o kv => put (fst kv) (snd kv) o) literal [].

Fixpoint own {V : Type} (o : list (string * V)) (name : string) : option V :=
  match o with
  | (k, v) :: rest => if k =? name then Some v else own rest name
  | [] => None
  end.

(** [_.keys(o)] *)
Definition keys {V : Type} (o : list (string * V)) : list string := map fst o.

Fixpoint insert_sorted (x : string) (xs : list string) : list string :=
  match xs with
  | y :: ys => if String.leb x y then x :: xs else y :: insert_sorted x ys
  | [] => [x]
  end.

(** [a.sort()]: by code units. *)
Definition sort (a : list string) : list string := fold_right insert_sorted [] a.

Definition when (b : bool) (m : M unit) : M unit := if b then m else ret tt.

Definition say (target text : string) : M unit := perform (Say target text).

(** ** Start-up: the configuration *)

(** [defaults] *)
Definition defaults : list (string * JsValue) :=
  [ ("irc", JObject [("nick", JString "standup")]);
    ("standup", JObject [("port", JNumber 80)]);
    ("log", JObject [("console", JBool true); ("file", JNull)]);
    ("pg", JObject [("enabled", JBool false)]) ].

(** The characters of a string as the properties [for ... in] finds on
    it: one for each index, from [i] on. *)
Fixpoint indexed (i : nat) (s : string) : list (string * JsValue) :=
  match s with
  | String c r =>
      (Js.string_of_number (Z.of_nat i), JString (String c "")) :: indexed (S i) r
  | EmptyString => []
  end.

(** The properties [for (var prop in source)] goes through, with their
    values: the members of an object, each name once; the characters of a
    string; nothing for any other value. *)
Definition enumerable (source : JsValue) : list (string * JsValue) :=
  match source with
  | JObject fields => object_of fields
  | JString s => indexed 0 s
  | JUndefined | JNull | JBool _ | JNumber _ => []
  end.

(** [_.extend(obj, source, ...)]: every property of every source is
    assigned to [obj], source after source; the values are not merged.  A
    source with a member named [__proto__] is outside the model: assigning
    that name sets the prototype of [obj] and adds no member. *)
Definition extend (obj : list (string * JsValue)) (sources : list JsValue)
  : list (string * JsValue) :=
  fold_left
    (fun obj source =>
       fold_left (fun o kv => put (fst kv) (snd kv) o) (enumerable source) obj)
    sources obj.

(** [config = _.extend({}, defaults, config || {})], where [config] is what
    [require('./config.json')] gave; the start without a [config.json] is
    not modelled. *)
Definition load_config (config : JsValue) : JsValue :=
  JObject (extend [] [JObject defaults;
                      if to_boolean config then config else JObject []]).

(** [v.name], throwing as JavaScript does on [undefined] and [null]. *)
Definition read (v : JsValue) (name : string) : M JsValue :=
  match get v name with
  | Some x => ret x
  | None => throw TypeError
  end.

(** A transport of the logger. *)
Inductive Transport : Type :=
| FileTransport (filename : JsValue)
| ConsoleTransport.

(** The array [transports] the logger is made with. *)
Definition make_transports (config : JsValue) : M (list Transport) :=
  let transports := [] in
  log <- read config "log" ;;
  file <- read log "file" ;;
  let transports :=
    if to_boolean file then app transports [FileTransport file] else transports in
  log <- read config "log" ;;
  console <- read log "console" ;;
  let transports :=
    if to_boolean console then app transports [ConsoleTransport] else transports in
  ret transports.

(** The connection string [pg_client] is made with, [None] when [pg_client]
    stays undefined; [DATABASE_URL] is [process.env.DATABASE_URL]. *)
Definition connect_pg (config DATABASE_URL : JsValue) : M (option JsValue) :=
  pg <- read config "pg" ;;
  enabled <- read pg "enabled" ;;
  if to_boolean enabled then
    connstring <- read pg "connstring" ;;
    let connstring :=
      if negb (to_boolean connstring) then DATABASE_URL else connstring in
    if to_boolean connstring then ret (Some connstring) else ret None
  else ret None.

(** Instances of the bot's parameters for the examples. *)
Module Examples.

(** A stand-in for [JSON.parse] that knows one body, the object whose [error]
    member is the string [detail]; any other text is refused as a syntax
    error. *)
Definition parse_error_body (detail : string) (text : string) : option JsValue :=
  if text =? "{" ++ dquote ++ "error" ++ dquote ++ ":" ++ dquote ++ detail ++ dquote ++ "}"
  then Some (JObject [("error", JString detail)])
  else None.


(** The draw of [_.shuffle] that leaves the array in order. *)
Definition in_order (a : list string) : list string := a.

End Examples.

Section Bot.

(** [config.irc.realNick]: the nickname the server assigned, stored by the
    [registered] listener. *)
Variable realNick : string.

(** The channels the client is in: the keys of [irc_client.chans]. *)
Variable chans : list string.

(** [pg_client] is set: the database is enabled and connected. *)
Variable pg_client : bool.

(** [os.hostname()] *)
Variable hostname : string.

(** [_.shuffle]: a permutation of its argument, drawn at random. *)
Variable shuffle : list string -> list string.

(** [utils.parseArgs] *)
Variable parseArgs : list string -> list string.

(** [JSON.parse]: [None] when it raises a SyntaxError. *)
Variable JSON_parse : string -> option JsValue.

(** *** The callbacks the handlers register *)

Definition delete_ok (channel : string) (id : Z) (data : JsValue) : M unit :=
  say channel ("Ok, status #" ++ Js.string_of_number id ++ " is no more!").

Definition delete_error (channel : string) (code data : JsValue) : M unit :=
  match JSON_parse (to_string data) with
  | None => throw SyntaxError
  | Some data =>
      if is_number 403 code then
        say channel ("You don't have permission to do " ++
                     "that. Did you post that status?")
      else
        let error := "I'm a failure, I couldn't do it." in
        match get data "error" with
        | None => throw TypeError
        | Some detail =>
            let error :=
              if to_boolean detail
              then error ++ " The server said: " ++ dquote ++ to_string detail ++ dquote
              else error in
            say channel error
        end
  end.

(** The function [commands.delete.func] passes to [utils.ifAuthorized]. *)
Definition delete_authorized (user channel : string) (args : list string)
  : M unit :=
  match nth_error args 0 with
  | None => throw TypeError   (* [id[0]] with [id] undefined *)
  | Some arg0 =>
      let id := if Js.first_is "#" arg0 then Js.slice1 arg0 else arg0 in
      match Js.parseInt10 id with
      | None =>
          say channel (dquote ++ arg0 ++ dquote ++ " " ++
                       "is not a valid status ID.")
      | Some id =>
          perform (ApiStatusDelete id user) ;;
          perform (OnceOk (DeleteOk channel id)) ;;
          perform (OnceError (DeleteError channel))
      end
  end.

Definition status_ok (channel : string) (data : JsValue) : M unit :=
  match get data "id" with
  | None => throw TypeError
  | Some id => say channel ("Ok, submitted status #" ++ to_string id)
  end.

Definition status_error (channel : string) (err data : JsValue) : M unit :=
  say channel "Uh oh, something went wrong.".

(** The function [commands.status.func] passes to [utils.ifAuthorized]. *)
Definition status_authorized (user channel : string) (args : list string)
  : M unit :=
  match nth_error args 0 with
  | None => throw TypeError   (* [project[0]] with [project] undefined *)
  | Some arg0 =>
      let project := if Js.first_is "#" arg0 then Js.slice1 arg0 else arg0 in
      let status := Js.join " " (tl args) in
      perform (ApiStatusCreate user project status) ;;
      perform (OnceOk (StatusOk channel)) ;;
      perform (OnceError (StatusError channel))
  end.

Definition update_ok (channel : string) (data : JsValue) : M unit :=
  perform (Action channel "updates some stuff!").

Definition update_error (channel : string) (code data : JsValue) : M unit :=
  if is_number 403 code then
    say channel ("You don't have permission to do " ++ "that.")
  else
    let error := "I'm a failure, I couldn't do it." in
    match get data "error" with
    | None => throw TypeError
    | Some detail =>
        let error :=
          if to_boolean detail
          then error ++ " The server said: " ++ dquote ++ to_string detail ++ dquote
          else error in
        say channel error
    end.

(** The function [commands.update.func] passes to [utils.ifAuthorized]. *)
Definition update_authorized (user channel : string) (args : list string)
  : M unit :=
  let what := nth_error args 0 in
  let value := nth_error args 1 in
  let who := nth_error args 2 in
  let who :=
    match who with
    | Some w => if Js.truthy w then w else user
    | None => user
    end in
  match what, value with
  | Some what, Some value =>
      when (Js.truthy what && Js.truthy value)
        (perform (ApiUserUpdate user what value who) ;;
         perform (OnceOk (UpdateOk channel)) ;;
         perform (OnceError (UpdateError channel)))
  | _, _ => ret tt
  end.

(** The listener [commands.trust.func] registers for the decision; the
    argument array is rendered as [+] renders it, joined by commas. *)
Definition trust_reply (channel : string) (args : list string) (trust : bool)
  : M unit :=
  if trust then say channel ("I trust " ++ Js.join "," args)
  else say channel ("I don't trust " ++ Js.join "," args).

(** Running a registered callback when its event is delivered. *)

Definition run_authorized (callback : AuthorizedCallback) : M unit :=
  match callback with
  | DeleteAuthorized user channel args => delete_authorized user channel args
  | StatusAuthorized user channel args => status_authorized user channel args
  | UpdateAuthorized user channel args => update_authorized user channel args
  end.

Definition run_ok (callback : OkCallback) (data : JsValue) : M unit :=
  match callback with
  | DeleteOk channel id => delete_ok channel id data
  | StatusOk channel => status_ok channel data
  | UpdateOk channel => update_ok channel data
  end.

Definition run_error (callback : ErrorCallback) (code data : JsValue) : M unit :=
  match callback with
  | DeleteError channel => delete_error channel code data
  | StatusError channel => status_error channel code data
  | UpdateError channel => update_error channel code data
  end.

Definition run_authorization (callback : TrustCallback) (trust : bool) : M unit :=
  match callback with
  | TrustReply channel args => trust_reply channel args trust
  end.

(** Modelled from the spec: [utils.ifAuthorized] is not part of app.js.  The
    spec's dispatcher asks the authorization manager for a trust decision on
    the user and invokes the wrapped function only if the decision is true;
    otherwise the command silently does not execute.  [trust] is the decision
    the manager delivers for the user of the pending [IfAuthorized]. *)
Definition ifAuthorized_decided (trust : bool) (callback : AuthorizedCallback)
  : M unit :=
  if trust then run_authorized callback else ret tt.

(** *** The handlers of the command table *)

Definition announce_func : Handler := fun user channel message args =>
  each chans (fun chan =>
    when (negb (chan =? channel)) (say chan (Js.join " " args))).

Definition botsnack_func : Handler := fun user channel message args =>
  let replies :=
    [ "Yummy!";
      "Thanks, " ++ user ++ "!";
      "My favorite!";
      "Can I have another?";
      "Tasty!" ] in
  say channel (hd "undefined" (shuffle replies)).

Definition bye_func : Handler := fun user channel message args =>
  say channel "Bye!" ;;
  perform (Part channel) ;;
  when pg_client (perform (PgQuery "DELETE FROM channels WHERE id=$1" [channel])).

Definition hostname_func : Handler := fun user channel message args =>
  say channel ("I'm running on " ++ hostname).

Definition chanlist_func : Handler := fun user channel message args =>
  say channel "I'm currently in:" ;;
  say channel (Js.join ", " (sort chans)).

Definition delete_func : Handler := fun user channel message args =>
  perform (IfAuthorized user channel (DeleteAuthorized user channel args)).

Definition goto_func : Handler := fun user channel message args =>
  match nth_error args 0 with
  | None => throw TypeError   (* [join[0]] with [join] undefined *)
  | Some join =>
      let join := if negb (Js.first_is "#" join) then "#" ++ join else join in
      when (Js.truthy join) (perform (Join join)) ;;
      when pg_client
        (perform (PgQuery "INSERT INTO channels(id, invited_by) values($1, $2)"
                          [join; user]))
  end.

Definition ping_func : Handler := fun user channel message args =>
  say channel "Pong!".

Definition status_func : Handler := fun user channel message args =>
  perform (IfAuthorized user channel (StatusAuthorized user channel args)).

Definition trust_func : Handler := fun user channel message args =>
  perform (AuthmanCheckUser args) ;;
  perform (OnceAuthorization (TrustReply channel args)).

Definition update_func : Handler := fun user channel message args =>
  perform (IfAuthorized user channel (UpdateAuthorized user channel args)).

Definition default_func : Handler := fun user channel message args =>
  say channel (user ++ ": Huh? Try !help.").

(** *** The command table *)

(** The object literal [commands], entry by entry as app.js writes it ([bye]
    stands twice there), with the handler of [help] left open: that handler
    reads the table it is an entry of. *)
Definition commands_literal (help_func : Handler) : list (string * Descriptor) :=
  [ ("announce", mkDescriptor (Some "Broadcast a message in all other channels.")
                              (Some "<message>") announce_func);
    ("botsnack", mkDescriptor None None botsnack_func);
    ("bye", mkDescriptor (Some "Ask the bot to leave the channel.") None bye_func);
    ("hostname", mkDescriptor (Some "Ask the bot where it is.") None hostname_func);
    ("bye", mkDescriptor (Some "Ask the bot to leave the channel.") None bye_func);
    ("chanlist", mkDescriptor (Some "Get a list of channels that I am in.") None
                              chanlist_func);
    ("delete", mkDescriptor (Some "Delete a status by id.") (Some "<id>") delete_func);
    ("goto", mkDescriptor (Some "Tell the bot to join a channel.reg   ")
                          (Some "<channel>") goto_func);
    ("help", mkDescriptor (Some "This help message.") None help_func);
    ("ping", mkDescriptor (Some "A simple presence check.") None ping_func);
    ("status", mkDescriptor None (Some "<project> status message") status_func);
    ("trust", mkDescriptor (Some "Check a user's authorization status.")
                           (Some "<user>") trust_func);
    ("update", mkDescriptor (Some "Update the user's settings.")
                            (Some "<name|email|github_handle> <value> [<user>]")
                            update_func);
    ("default", mkDescriptor None None default_func) ].

(** The line [help] prints for [command], when the entry has a help text. *)
Definition help_line (table : list (string * Descriptor)) (channel command : string)
  : M unit :=
  match own table command with
  | None => throw TypeError   (* [commands[command].help] on undefined *)
  | Some d =>
      match help d with
      | Some h =>
          let message := ["!" ++ command] in
          let message :=
            match usage d with
            | Some u => app message [u]
            | None => message
            end in
          let message := app message ["- " ++ h] in
          say channel (Js.join " " message)
      | None => ret tt
      end
  end.

(** [commands.help.func] over the table [table]; it reads the keys and the
    [help] and [usage] fields, never a handler. *)
Definition help_over (table : list (string * Descriptor)) : Handler :=
  fun user channel message args =>
    say channel "Available commands:" ;;
    each (sort (keys table)) (help_line table channel).

Definition help_func : Handler :=
  help_over (object_of (commands_literal default_func)).

(** [commands] *)
Definition commands : list (string * Descriptor) :=
  object_of (commands_literal help_func).

(** [commands[name]] *)
Definition commands_get (name : string) : Property :=
  match own commands name with
  | Some d => Own d
  | None => if inherited_name name then Inherited else Undefined
  end.

(** [p || q] *)
Definition or_else (p q : Property) : Property :=
  match p with
  | Undefined => q
  | _ => p
  end.

(** [cmd.func(user, channel, message, args)]: only an entry of the table has
    a [func]; on anything else the callee is undefined and the call raises a
    TypeError. *)
Definition call_func (cmd : Property) (user channel message : string)
  (args : list string) : M unit :=
  match cmd with
  | Own d => func d user channel message args
  | Inherited | Undefined => throw TypeError
  end.

(** [cmd(user, channel)]: the call of the property itself.  An entry of the
    table is an object, not a function, and calling it raises a TypeError; a
    built-in of Object.prototype would run and touch no collaborator. *)
Definition call_property (cmd : Property) (user channel : string) : M unit :=
  match cmd with
  | Own _ | Undefined => throw TypeError
  | Inherited => ret tt
  end.

(** *** The listeners *)

(** [irc_client.on('error', ...)] *)
Definition on_error (error : IrcError) : M unit :=
  if negb (rawCommand error =? "421") then ret tt
  else
    perform (LoggerErrorObject error) ;;
    match stack error with
    | Some trace => perform (LoggerError trace)
    | None => ret tt
    end.

(** [irc_client.on('invite', ...)] *)
Definition on_invite (channel from : string) : M unit :=
  perform (LoggerInfo ("Invited to " ++ channel ++ " by " ++ from ++ ".")) ;;
  goto_func from channel "" [channel].

(** [irc_client.on('kick', ...)] *)
Definition on_kick (channel user by_ : string) : M unit :=
  if user =? realNick then
    perform (LoggerInfo ("Kicked from " ++ channel ++ " by " ++ by_ ++ ".")) ;;
    call_property (commands_get "bye") user channel
  else ret tt.

(** [irc_client.on('message', ...)] *)
Definition on_message (user channel message : string) : M unit :=
  match targetMessageRegex_exec realNick message with
  | Some captured =>
      let message := Js.trim captured in
      if Js.first_is "!" message then
        let cmd_name := Js.slice1 (hd "" (Js.split " " message)) in
        let args := tl (Js.split " " message) in
        let args := parseArgs args in
        let cmd := or_else (commands_get cmd_name) (commands_get "default") in
        call_func cmd user channel message args
      else if Js.toLowerCase message =? "botsnack" then
        botsnack_func user channel message []
      else
        status_func user channel message [channel; message]
  | None => ret tt
  end.

(** [irc_client.on('notice', ...)]: [from] is [None] when the client passes
    [undefined]. *)
Definition on_notice (from : option string) (to text : string) : M unit :=
  from <- match from with
          | None => perform (LoggerInfo ("Service Notice: " ++ text)) ;; ret ""
          | Some nick => ret nick
          end ;;
  let from := Js.toLowerCase from in
  when (from =? "nickserv") (perform (AuthmanNotice from text)).

(** ** Properties *)

(** *** Strings and the address pattern *)

Lemma strip_prefix_app (n r : string) : Js.strip_prefix n (n ++ r) = Some r.
Proof.
  induction n as [|a n IH]; simpl.
  - reflexivity.
  - now rewrite Ascii.eqb_refl.
Qed.

Lemma strip_prefix_sound (n s r : string) :
  Js.strip_prefix n s = Some r -> s = n ++ r.
Proof.
  revert s; induction n as [|a n IH]; intros s H; simpl in *.
  - now inversion H.
  - destruct s as [|b s]; [discriminate|].
    destruct (Ascii.eqb a b) eqn:E; [|discriminate].
    apply Ascii.eqb_eq in E; subst b.
    now rewrite (IH _ H).
Qed.

Lemma prefix_app (n a b : string) :
  String.prefix (n ++ a) (n ++ b) = String.prefix a b.
Proof.
  induction n as [|c n IH]; simpl.
  - reflexivity.
  - destruct (ascii_dec c c) as [_|ne]; [exact IH|now destruct ne].
Qed.

Lemma prefix_one (c : ascii) (rest : string) :
  String.prefix (String c "") (String c rest) = true.
Proof.
  simpl. destruct (ascii_dec c c) as [_|ne]; [now destruct rest|now destruct ne].
Qed.

(** A match of the address pattern begins with the nickname and a separator. *)
Lemma exec_begins_with_address (nick message captured : string) :
  targetMessageRegex_exec nick message = Some captured ->
  String.prefix (nick ++ ":") message = true
  \/ String.prefix (nick ++ ",") message = true.
Proof.
  unfold targetMessageRegex_exec.
  destruct (Js.strip_prefix nick message) as [[|c rest]|] eqn:E; try discriminate.
  apply strip_prefix_sound in E; subst message.
  destruct (Ascii.eqb c ":") eqn:Ec.
  - apply Ascii.eqb_eq in Ec; subst c. intros _. left.
    rewrite prefix_app. apply prefix_one.
  - destruct (Ascii.eqb c ",") eqn:Ec'; [|discriminate].
    apply Ascii.eqb_eq in Ec'; subst c. intros _. right.
    rewrite prefix_app. apply prefix_one.
Qed.

(** The first piece of a split begins as the string does. *)
Lemma split_first_char (sep c : ascii) (s t : string) (ts : list string) :
  Js.split sep s = String c t :: ts -> Js.first_is c s = true.
Proof.
  destruct s as [|c0 r]; simpl.
  - discriminate.
  - destruct (Ascii.eqb c0 sep); [discriminate|].
    destruct (Js.split sep r); intros H; inversion H; subst;
      unfold Js.first_is; simpl; apply Ascii.eqb_refl.
Qed.

(** The parser modelled from the spec returns tokens without quoting
    unchanged. *)
Lemma parseArgs_plain_tokens (tokens : list string) :
  forallb (fun t => negb (Utils.opens_quote t)) tokens = true ->
  Utils.parseArgs tokens = tokens.
Proof.
  unfold Utils.parseArgs.
  induction tokens as [|t rest IH]; simpl; intros H.
  - reflexivity.
  - apply andb_true_iff in H as [Ht Hrest].
    apply negb_true_iff in Ht. rewrite Ht. now rewrite (IH Hrest).
Qed.

(** C1: a channel message that does not begin with the bot's current
    nickname followed by [:] or [,] is ignored entirely: the message listener
    invokes no handler, performs no effect (so sends no reply) and completes
    normally. *)
Theorem on_message_ignores_unaddressed (user channel message : string) :
  String.prefix (realNick ++ ":") message = false ->
  String.prefix (realNick ++ ",") message = false ->
  on_message user channel message = ([], Normal tt).
Proof.
  intros Hcolon Hcomma. unfold on_message.
  destruct (targetMessageRegex_exec realNick message) as [captured|] eqn:E.
  - destruct (exec_begins_with_address _ _ _ E) as [H|H]; congruence.
  - reflexivity.
Qed.

(** *** The command table *)

Lemma commands_get_default :
  commands_get "default" = Own (mkDescriptor None None default_func).
Proof. reflexivity. Qed.

Lemma commands_get_delete :
  commands_get "delete"
  = Own (mkDescriptor (Some "Delete a status by id.") (Some "<id>") delete_func).
Proof. reflexivity. Qed.

Lemma commands_get_own (name : string) (d : Descriptor) :
  own commands name = Some d -> commands_get name = Own d.
Proof. intros H. unfold commands_get. now rewrite H. Qed.

(** No entry of the table bears a name of Object.prototype. *)
Lemma inherited_not_own (name : string) :
  inherited_name name = true -> own commands name = None.
Proof.
  unfold inherited_name. intros H.
  apply existsb_exists in H as [x [Hin Heq]].
  apply String.eqb_eq in Heq; subst x.
  simpl in Hin.
  repeat (destruct Hin as [<-|Hin]; [reflexivity|]).
  contradiction.
Qed.

(** A text that starts with the command marker splits into the marked name
    and the raw arguments. *)
Lemma split_of_command (m : string) :
  Js.first_is "!" m = true ->
  exists name tokens, Js.split " " m = String "!" name :: tokens.
Proof.
  destruct m as [|c r]; unfold Js.first_is; simpl; [discriminate|].
  intros H. apply Ascii.eqb_eq in H; subst c. simpl.
  destruct (Js.split " " r) as [|t ts]; eauto.
Qed.

(** The command branch of the message listener: the call that is made. *)
Lemma on_message_command (user channel message captured name : string)
  (tokens : list string) :
  targetMessageRegex_exec realNick message = Some captured ->
  Js.split " " (Js.trim captured) = String "!" name :: tokens ->
  on_message user channel message
  = call_func (or_else (commands_get name) (commands_get "default"))
      user channel (Js.trim captured) (parseArgs tokens).
Proof.
  intros E S. unfold on_message. rewrite E.
  rewrite (split_first_char _ _ _ _ _ S). now rewrite S.
Qed.

(** C2 (as amended): the message listener has no guard around the handler
    call.  When the handler of an addressed command raises synchronously, the
    listener completes with that same exception and with exactly the effects
    the handler had performed: the exception is neither caught nor logged. *)
Theorem on_message_propagates_exception (user channel message captured name : string)
  (tokens : list string) (d : Descriptor) (w : list Effect) (e : Exception) :
  targetMessageRegex_exec realNick message = Some captured ->
  Js.split " " (Js.trim captured) = String "!" name :: tokens ->
  own commands name = Some d ->
  func d user channel (Js.trim captured) (parseArgs tokens) = (w, Throw e) ->
  on_message user channel message = (w, Throw e).
Proof.
  intros E S O F.
  rewrite (on_message_command _ _ _ _ _ _ E S).
  rewrite (commands_get_own _ _ O). exact F.
Qed.

(** C4 (as amended): for an addressed [!delete <id>] whose first parsed
    argument, after an optional leading [#] is stripped, does not parse as a
    number, the listener hands the deletion to the authorization gate and
    calls nothing else.  When the gate's decision for the user is true, the
    bot replies to the channel with the argument in quotes followed by
    [is not a valid status ID.]; when the decision is false, nothing happens
    at all.  Whatever the decision, no call to the status service is made. *)
Theorem delete_rejects_invalid_id (user channel message captured id : string)
  (tokens rest : list string) :
  targetMessageRegex_exec realNick message = Some captured ->
  Js.split " " (Js.trim captured) = "!delete" :: tokens ->
  parseArgs tokens = id :: rest ->
  Js.parseInt10 (if Js.first_is "#" id then Js.slice1 id else id) = None ->
  on_message user channel message
  = ([IfAuthorized user channel (DeleteAuthorized user channel (id :: rest))],
     Normal tt)
  /\ ifAuthorized_decided true (DeleteAuthorized user channel (id :: rest))
     = ([Say channel (dquote ++ id ++ dquote ++ " is not a valid status ID.")],
        Normal tt)
  /\ ifAuthorized_decided false (DeleteAuthorized user channel (id :: rest))
     = ([], Normal tt)
  /\ (forall trust,
       existsb is_status_service_call
         (effects (on_message user channel message)
          ++ effects (ifAuthorized_decided trust
                        (DeleteAuthorized user channel (id :: rest))))%list
       = false).
Proof.
  intros E S A N.
  assert (L : on_message user channel message
              = ([IfAuthorized user channel
                    (DeleteAuthorized user channel (id :: rest))], Normal tt)).
  { rewrite (on_message_command _ _ _ _ _ _ E S).
    rewrite commands_get_delete. simpl. now rewrite A. }
  assert (T : ifAuthorized_decided true (DeleteAuthorized user channel (id :: rest))
              = ([Say channel (dquote ++ id ++ dquote ++ " is not a valid status ID.")],
                 Normal tt)).
  { simpl. unfold delete_authorized. simpl. now rewrite N. }
  repeat split; try assumption.
  intros [|]; [rewrite L, T|rewrite L]; reflexivity.
Qed.

(** C5 (as amended): for an addressed message whose stripped text starts
    with [!], the text is split at single spaces; the first piece without the
    marker is the command name and the other pieces go through the argument
    parser.  A name that is an entry of the table invokes that entry's
    handler with the parsed arguments; a name that is neither an entry nor a
    property name inherited from Object.prototype invokes the default
    descriptor, which replies to the channel, addressing the user, with
    [Huh? Try !help.]. *)
Theorem command_resolution (user channel message captured name : string)
  (tokens : list string) :
  targetMessageRegex_exec realNick message = Some captured ->
  Js.split " " (Js.trim captured) = String "!" name :: tokens ->
  (forall d, own commands name = Some d ->
     on_message user channel message
     = func d user channel (Js.trim captured) (parseArgs tokens))
  /\ (own commands name = None -> inherited_name name = false ->
      on_message user channel message
      = ([Say channel (user ++ ": Huh? Try !help.")], Normal tt)).
Proof.
  intros E S. rewrite (on_message_command _ _ _ _ _ _ E S). split.
  - intros d O. now rewrite (commands_get_own _ _ O).
  - intros O I. unfold commands_get at 1. rewrite O, I. reflexivity.
Qed.

(** A command name inherited from Object.prototype is found in the table's
    prototype, so the default descriptor is not taken; what is found has no
    [func], and the call raises a TypeError out of the listener. *)
Theorem inherited_command_name_throws (user channel message captured name : string)
  (tokens : list string) :
  targetMessageRegex_exec realNick message = Some captured ->
  Js.split " " (Js.trim captured) = String "!" name :: tokens ->
  inherited_name name = true ->
  on_message user channel message = ([], Throw TypeError).
Proof.
  intros E S I. rewrite (on_message_command _ _ _ _ _ _ E S).
  unfold commands_get at 1. rewrite (inherited_not_own _ I), I. reflexivity.
Qed.

(** C6: for an addressed message whose stripped text does not start with
    [!]: when the text, lowercased, is exactly [botsnack], the botsnack
    handler is called (with no arguments); for any other text the status
    handler is called with the channel and the whole stripped text as its two
    arguments. *)
Theorem unmarked_message_routing (user channel message captured : string) :
  targetMessageRegex_exec realNick message = Some captured ->
  Js.first_is "!" (Js.trim captured) = false ->
  (Js.toLowerCase (Js.trim captured) = "botsnack" ->
     on_message user channel message
     = botsnack_func user channel (Js.trim captured) [])
  /\ (Js.toLowerCase (Js.trim captured) <> "botsnack" ->
      on_message user channel message
      = status_func user channel (Js.trim captured) [channel; Js.trim captured]).
Proof.
  intros E F. unfold on_message. rewrite E, F. split; intros H.
  - apply String.eqb_eq in H. now rewrite H.
  - apply String.eqb_neq in H. now rewrite H.
Qed.

(** C7 (the code at the failing input): when the bot itself is kicked, the
    kick listener logs the kick and then calls the [bye] entry of the table
    as if the entry were a function; the call raises a TypeError, so nothing
    is said in the channel and the channel is not parted. *)
Theorem kick_of_bot_throws (channel by_ : string) :
  on_kick channel realNick by_
  = ([LoggerInfo ("Kicked from " ++ channel ++ " by " ++ by_ ++ ".")],
     Throw TypeError).
Proof.
  unfold on_kick. rewrite String.eqb_refl. reflexivity.
Qed.

(** Kicks of other users are ignored. *)
Lemma kick_of_other_ignored (channel user by_ : string) :
  user <> realNick -> on_kick channel user by_ = ([], Normal tt).
Proof.
  intros H. unfold on_kick. apply String.eqb_neq in H. now rewrite H.
Qed.

(** C8 (the code at the failing input): an [error] event whose raw command
    is not 421 leaves the listener at its first test: nothing is logged. *)
Theorem on_error_skips_other_errors (error : IrcError) :
  (rawCommand error =? "421") = false -> on_error error = ([], Normal tt).
Proof.
  intros H. unfold on_error. now rewrite H.
Qed.

(** Only an error whose raw command is 421 is logged, with its stack when it
    has one; the listener never throws. *)
Lemma on_error_logs_421 (error : IrcError) :
  rawCommand error = "421" ->
  on_error error
  = (LoggerErrorObject error
       :: match stack error with
          | Some trace => [LoggerError trace]
          | None => []
          end,
     Normal tt).
Proof.
  intros H. unfold on_error. rewrite H. simpl. now destruct (stack error).
Qed.

Lemma exec_of_addressed (text : string) :
  Js.no_line_terminator text = true ->
  targetMessageRegex_exec realNick (realNick ++ String ":" text) = Some text.
Proof.
  intros H. unfold targetMessageRegex_exec. rewrite strip_prefix_app. simpl.
  destruct text as [|c r]; [reflexivity|]. simpl. now rewrite H.
Qed.

(** C9: the goto handler called with an empty argument list reads the first
    character of its missing first argument and raises a TypeError before
    any effect: no channel is joined and nothing is said.  So does the
    addressed message [!goto], its empty list of raw arguments being parsed
    to the empty list. *)
Theorem goto_without_argument_throws (user channel message : string) :
  goto_func user channel message [] = ([], Throw TypeError)
  /\ (parseArgs [] = [] ->
      on_message user channel (realNick ++ ": !goto") = ([], Throw TypeError)).
Proof.
  split; [reflexivity|]. intros A.
  rewrite (on_message_command user channel _ " !goto" "goto" []).
  - rewrite A. reflexivity.
  - now apply exec_of_addressed.
  - reflexivity.
Qed.

(** C10: the notice listener forwards a notice to the authorization manager
    exactly when its source, lowercased, is [nickserv]; an undefined source
    is logged and then read as the empty source, which is not forwarded; a
    notice from any other source has no effect; the listener never throws. *)
Theorem notice_forwarding (from : option string) (to text : string) :
  on_notice from to text
  = ((match from with
      | None => [LoggerInfo ("Service Notice: " ++ text)]
      | Some _ => []
      end
      ++
      if Js.toLowerCase (match from with Some nick => nick | None => "" end)
         =? "nickserv"
      then [AuthmanNotice "nickserv" text]
      else [])%list,
     Normal tt)
  /\ existsb is_authman_notice (effects (on_notice from to text))
     = (Js.toLowerCase (match from with Some nick => nick | None => "" end)
        =? "nickserv")
  /\ throws (on_notice from to text) = false.
Proof.
  destruct from as [nick|]; unfold on_notice; simpl.
  - destruct (Js.toLowerCase nick =? "nickserv") eqn:E; simpl.
    + apply String.eqb_eq in E. rewrite E. auto.
    + auto.
  - auto.
Qed.

(** *** Failures of the status service *)







(** *** White space after the separator *)

Lemma trimStart_white (ws text : string) :
  forallb Js.isWhiteSpace (list_ascii_of_string ws) = true ->
  Js.trimStart (ws ++ text) = Js.trimStart text.
Proof.
  induction ws as [|c ws IH]; simpl; intros H.
  - reflexivity.
  - apply andb_true_iff in H as [Hc Hws]. rewrite Hc. auto.
Qed.

(** The lazy run of white space stops somewhere inside the run. *)
Lemma lazy_space_captures (ws text : string) :
  forallb Js.isWhiteSpace (list_ascii_of_string ws) = true ->
  Js.no_line_terminator text = true ->
  exists captured,
    lazy_space_then_rest (ws ++ text) = Some captured
    /\ Js.trimStart captured = Js.trimStart text.
Proof.
  induction ws as [|c ws IH]; intros Hws Htext.
  - exists text. split; [|reflexivity].
    destruct text as [|c r]; [reflexivity|].
    simpl append. unfold lazy_space_then_rest; fold lazy_space_then_rest.
    now rewrite Htext.
  - simpl in Hws. apply andb_true_iff in Hws as [Hc Hws].
    simpl append. unfold lazy_space_then_rest; fold lazy_space_then_rest.
    destruct (Js.no_line_terminator (String c (ws ++ text))).
    + eexists. split; [reflexivity|].
      change (String c (ws ++ text)) with (String c ws ++ text).
      apply trimStart_white. simpl. now rewrite Hc.
    + rewrite Hc. now apply IH.
Qed.

(** The listener reads its message only through the trimmed capture. *)
Lemma on_message_by_capture (user channel m1 m2 c1 c2 : string) :
  targetMessageRegex_exec realNick m1 = Some c1 ->
  targetMessageRegex_exec realNick m2 = Some c2 ->
  Js.trim c1 = Js.trim c2 ->
  on_message user channel m1 = on_message user channel m2.
Proof.
  intros E1 E2 T. unfold on_message. now rewrite E1, E2, T.
Qed.

(** White space between the separator and the text does not matter: the
    message is dispatched as the same message without it. *)
Theorem address_whitespace_irrelevant (user channel ws text : string) (sep : ascii) :
  sep = ":"%char \/ sep = ","%char ->
  forallb Js.isWhiteSpace (list_ascii_of_string ws) = true ->
  Js.no_line_terminator text = true ->
  on_message user channel (realNick ++ String sep (ws ++ text))
  = on_message user channel (realNick ++ String sep text).
Proof.
  intros Hsep Hws Htext.
  destruct (lazy_space_captures ws text Hws Htext) as [c1 [L1 T1]].
  destruct (lazy_space_captures "" text eq_refl Htext) as [c2 [L2 T2]].
  simpl append in L2.
  apply (on_message_by_capture user channel _ _ c1 c2).
  - unfold targetMessageRegex_exec. rewrite strip_prefix_app.
    destruct Hsep as [-> | ->]; exact L1.
  - unfold targetMessageRegex_exec. rewrite strip_prefix_app.
    destruct Hsep as [-> | ->]; exact L2.
  - unfold Js.trim. now rewrite T1, T2.
Qed.

(** *** The handlers *)

Lemma split_nonempty (sep : ascii) (s : string) : Js.split sep s <> [].
Proof.
  destruct s as [|c r]; simpl; [discriminate|].
  destruct (Ascii.eqb c sep); [discriminate|].
  destruct (Js.split sep r); discriminate.
Qed.

(** Joining the pieces of a split with the separator gives the text back. *)
Lemma join_split (sep : ascii) (s : string) :
  Js.join (String sep "") (Js.split sep s) = s.
Proof.
  unfold Js.join.
  induction s as [|c r IH]; simpl; [reflexivity|].
  destruct (Ascii.eqb c sep) eqn:E.
  - apply Ascii.eqb_eq in E; subst c.
    destruct (Js.split sep r) as [|t ts] eqn:S.
    + now destruct (split_nonempty sep r).
    + simpl in *. now rewrite IH.
  - destruct (Js.split sep r) as [|t ts] eqn:S.
    + now destruct (split_nonempty sep r).
    + destruct ts; simpl in *; now rewrite IH.
Qed.

(** [each] over handlers that only talk: the trace is the talk, in order. *)
Lemma each_when_say (xs : list string) (keep : string -> bool)
  (text : string -> string) :
  each xs (fun x => when (keep x) (say x (text x)))
  = (map (fun x => Say x (text x)) (filter keep xs), Normal tt).
Proof.
  induction xs as [|x xs IH]; simpl; [reflexivity|].
  rewrite IH. now destruct (keep x).
Qed.

Lemma no_say_to_filtered (channel text : string) (cs : list string) :
  existsb (fun e => match e with
                    | Say target _ => target =? channel
                    | _ => false
                    end)
    (effects (map (fun chan => Say chan text)
                  (filter (fun chan => negb (chan =? channel)) cs),
              Normal tt))
  = false.
Proof.
  unfold effects. simpl.
  induction cs as [|c cs IH]; simpl; [reflexivity|].
  destruct (c =? channel) eqn:E; simpl; [exact IH|].
  now rewrite E.
Qed.

Lemma announce_trace (user channel message : string) (args : list string) :
  announce_func user channel message args
  = (map (fun chan => Say chan (Js.join " " args))
         (filter (fun chan => negb (chan =? channel)) chans),
     Normal tt).
Proof.
  unfold announce_func.
  exact (each_when_say chans (fun chan => negb (chan =? channel))
           (fun _ => Js.join " " args)).
Qed.

(** [announce] says its arguments, joined by single spaces, in every channel
    the bot is in but the one it was asked in, in the order of the client's
    channel table, and completes normally.  When the arguments are the
    pieces of a text split at single spaces, what is said is that text. *)
Theorem announce_broadcasts_elsewhere (user channel message : string)
  (args : list string) :
  announce_func user channel message args
  = (map (fun chan => Say chan (Js.join " " args))
         (filter (fun chan => negb (chan =? channel)) chans),
     Normal tt)
  /\ (forall text,
        announce_func user channel message (Js.split " " text)
        = (map (fun chan => Say chan text)
               (filter (fun chan => negb (chan =? channel)) chans),
           Normal tt))
  /\ existsb (fun e => match e with
                       | Say target _ => target =? channel
                       | _ => false
                       end)
       (effects (announce_func user channel message args))
     = false.
Proof.
  split; [apply announce_trace|]. split.
  - intros text. rewrite announce_trace. now rewrite (join_split " " text).
  - rewrite announce_trace. apply no_say_to_filtered.
Qed.

(** Whatever permutation [_.shuffle] draws, the botsnack reply is one of the
    five replies of the handler, said once in the channel it was asked in. *)
Theorem botsnack_reply_is_one_of_five (user channel message : string)
  (args : list string) :
  (forall a, Permutation (shuffle a) a) ->
  exists reply,
    botsnack_func user channel message args = ([Say channel reply], Normal tt)
    /\ In reply [ "Yummy!"; "Thanks, " ++ user ++ "!"; "My favorite!";
                  "Can I have another?"; "Tasty!" ].
Proof.
  intros P. unfold botsnack_func.
  set (replies := [ "Yummy!"; "Thanks, " ++ user ++ "!"; "My favorite!";
                    "Can I have another?"; "Tasty!" ]).
  specialize (P replies).
  destruct (shuffle replies) as [|r rs] eqn:S.
  - apply Permutation_nil in P. discriminate.
  - exists r. split; [reflexivity|].
    apply (Permutation_in r P). now left.
Qed.

(** The channel name [goto] joins: its argument, with [#] put in front
    unless it is there already. *)
Lemma goto_with_argument (user channel message arg : string) (rest : list string) :
  goto_func user channel message (arg :: rest)
  = (Join (if Js.first_is "#" arg then arg else "#" ++ arg)
       :: (if pg_client
           then [PgQuery "INSERT INTO channels(id, invited_by) values($1, $2)"
                   [if Js.first_is "#" arg then arg else "#" ++ arg; user]]
           else []),
     Normal tt).
Proof.
  unfold goto_func. cbv beta. simpl nth_error. cbv beta iota zeta.
  destruct (Js.first_is "#" arg) eqn:F; simpl negb; cbv iota.
  - destruct arg as [|c r]; [discriminate|]. simpl. now destruct pg_client.
  - simpl. now destruct pg_client.
Qed.

(** [goto] with an argument never throws and always joins exactly one
    channel, whose name starts with [#]: the guard on an empty name never
    fails.  A name that starts with [#] is joined as given; with the
    database on, the channel is recorded under the joined name with the
    user as inviter. *)
Theorem goto_joins_hash_channel (user channel message arg : string)
  (rest : list string) :
  exists name,
    goto_func user channel message (arg :: rest)
    = (Join name
         :: (if pg_client
             then [PgQuery "INSERT INTO channels(id, invited_by) values($1, $2)"
                     [name; user]]
             else []),
       Normal tt)
    /\ Js.first_is "#" name = true
    /\ (Js.first_is "#" arg = true -> name = arg)
    /\ (Js.first_is "#" arg = false -> name = "#" ++ arg).
Proof.
  exists (if Js.first_is "#" arg then arg else "#" ++ arg).
  split; [apply goto_with_argument|].
  destruct (Js.first_is "#" arg) eqn:F; repeat split; try reflexivity;
    try assumption; discriminate.
Qed.

(** An invitation never makes the bot throw: the invite listener logs the
    invitation and joins the channel it was invited to (with [#] put in
    front if it is missing), recording the inviter when the database is
    on. *)
Theorem on_invite_joins (channel from : string) :
  on_invite channel from
  = (LoggerInfo ("Invited to " ++ channel ++ " by " ++ from ++ ".")
       :: Join (if Js.first_is "#" channel then channel else "#" ++ channel)
       :: (if pg_client
           then [PgQuery "INSERT INTO channels(id, invited_by) values($1, $2)"
                   [if Js.first_is "#" channel then channel else "#" ++ channel;
                    from]]
           else []),
     Normal tt).
Proof.
  unfold on_invite. now rewrite goto_with_argument.
Qed.

(** Asked by an addressed [!bye], whatever follows the command name, the
    bot says [Bye!] in the channel, then parts it, then (with the database
    on) forgets the channel; the listener completes normally. *)
Theorem bye_by_message (user channel message captured : string)
  (tokens : list string) :
  targetMessageRegex_exec realNick message = Some captured ->
  Js.split " " (Js.trim captured) = "!bye" :: tokens ->
  on_message user channel message
  = (Say channel "Bye!"
       :: Part channel
       :: (if pg_client
           then [PgQuery "DELETE FROM channels WHERE id=$1" [channel]]
           else []),
     Normal tt).
Proof.
  intros E S. rewrite (on_message_command _ _ _ _ _ _ E S).
  simpl. unfold bye_func. now destruct pg_client.
Qed.

(** *** Status ids *)

(** Once a digit has been read, the reading gives a number. *)
Lemma leading_digits_some (s : string) (a : Z) :
  Js.leading_digits s (Some a) <> None.
Proof.
  revert a. induction s as [|c r IH]; simpl; intros a.
  - discriminate.
  - destruct (Js.digit_value c); [apply IH|discriminate].
Qed.

Lemma leading_digits_step (c : ascii) (r : string) (a k : Z) :
  Js.digit_value c = Some k ->
  Js.leading_digits (String c r) (Some a)
  = Js.leading_digits r (Some (10 * a + k)%Z).
Proof.
  intros H. unfold Js.leading_digits; fold Js.leading_digits. now rewrite H.
Qed.

(** Reading the digits of a decimal numeral, then junk that no digit starts:
    the digits read so far are [d'], least significant first. *)
Lemma leading_digits_numeral (d d' : Decimal.uint) (junk : string) :
  Js.leading_digits junk None = None ->
  Js.leading_digits (NilEmpty.string_of_uint d ++ junk)
    (Some (Z.of_N (Unsigned.of_lu d')))
  = Some (Z.of_N (Unsigned.of_lu (Decimal.revapp d d'))).
Proof.
  intros J. revert d'.
  induction d as [|d IH|d IH|d IH|d IH|d IH|d IH|d IH|d IH|d IH|d IH];
    intros d'; cbn [NilEmpty.string_of_uint append Decimal.revapp];
    try (erewrite leading_digits_step by reflexivity;
         rewrite <- IH; f_equal; f_equal; cbn [Unsigned.of_lu];
         match goal with
         | |- context [Z.of_nat ?n] =>
             let v := eval vm_compute in (Z.of_nat n) in
             change (Z.of_nat n) with v
         end; lia).
  destruct junk as [|c r]; [reflexivity|].
  unfold Js.leading_digits in *; fold Js.leading_digits in *.
  destruct (Js.digit_value c); [|reflexivity].
  now destruct (leading_digits_some r _ J).
Qed.

Lemma leading_digits_numeral_start (d : Decimal.uint) (junk : string) :
  d <> Decimal.Nil ->
  Js.leading_digits junk None = None ->
  Js.leading_digits (NilEmpty.string_of_uint d ++ junk) None
  = Some (Z.of_N (Pos.of_uint d)).
Proof.
  intros Hd J. rewrite Unsigned.of_uint_alt. unfold Decimal.rev.
  destruct d as [|d|d|d|d|d|d|d|d|d|d]; [now destruct Hd| ..];
    cbn [NilEmpty.string_of_uint append Decimal.revapp];
    rewrite <- (leading_digits_numeral d _ junk J); reflexivity.
Qed.

(** A string that starts with a digit is read from its first character. *)
Lemma parseInt10_from_digit (c : ascii) (r : string) (k : Z) :
  Js.digit_value c = Some k ->
  Js.parseInt10 (String c r) = Js.leading_digits (String c r) None.
Proof.
  destruct c as [[] [] [] [] [] [] [] []]; intros H;
    try discriminate H; reflexivity.
Qed.

Lemma numeral_starts_with_digit (d : Decimal.uint) (junk : string) :
  d <> Decimal.Nil ->
  exists c r k,
    NilEmpty.string_of_uint d ++ junk = String c r
    /\ Js.digit_value c = Some k.
Proof.
  intros Hd.
  destruct d as [|d|d|d|d|d|d|d|d|d|d]; [now destruct Hd| ..];
    cbn [NilEmpty.string_of_uint append]; do 3 eexists; split; reflexivity.
Qed.

Lemma parseInt10_positive (p : positive) (junk : string) :
  Js.leading_digits junk None = None ->
  Js.parseInt10 (NilEmpty.string_of_uint (Pos.to_uint p) ++ junk)
  = Some (Z.pos p).
Proof.
  intros J.
  destruct (numeral_starts_with_digit (Pos.to_uint p) junk
              (Unsigned.to_uint_nonnil p)) as [c [r [k [E D]]]].
  rewrite E, (parseInt10_from_digit c r k D), <- E.
  rewrite (leading_digits_numeral_start _ _ (Unsigned.to_uint_nonnil p) J).
  now rewrite Unsigned.of_to.
Qed.

Lemma string_of_positive (p : positive) :
  NilZero.string_of_uint (Pos.to_uint p)
  = NilEmpty.string_of_uint (Pos.to_uint p).
Proof.
  pose proof (Unsigned.to_uint_nonnil p) as H.
  now destruct (Pos.to_uint p).
Qed.

(** [parseInt] reads back the decimal rendering of an integer, whatever
    follows it, as long as no digit follows it. *)
Lemma parseInt10_string_of_number (z : Z) (junk : string) :
  Js.leading_digits junk None = None ->
  Js.parseInt10 (Js.string_of_number z ++ junk) = Some z.
Proof.
  intros J. unfold Js.string_of_number. destruct z as [|p|p]; simpl Z.to_int.
  - change (NilZero.string_of_int (Decimal.Pos Decimal.zero))
      with (NilEmpty.string_of_uint (Decimal.D0 Decimal.Nil)).
    pose proof (leading_digits_numeral_start (Decimal.D0 Decimal.Nil) junk) as L.
    cbn [NilEmpty.string_of_uint append] in *.
    rewrite (parseInt10_from_digit "0" _ 0%Z eq_refl).
    now rewrite L.
  - unfold NilZero.string_of_int. rewrite string_of_positive.
    now apply parseInt10_positive.
  - unfold NilZero.string_of_int. rewrite string_of_positive.
    pose proof (parseInt10_positive p junk J) as P.
    destruct (numeral_starts_with_digit (Pos.to_uint p) junk
                (Unsigned.to_uint_nonnil p)) as [c [r [k [E D]]]].
    rewrite E, (parseInt10_from_digit c r k D), <- E in P.
    cbn [append]. unfold Js.parseInt10. cbn [Js.trimStart].
    change (Js.isWhiteSpace "-") with false. cbv iota.
    now rewrite P.
Qed.

(** [!delete] accepts an id written as a decimal numeral of magnitude at
    most 2^53 (the integers a JavaScript number holds exactly), with or
    without a leading [#] and whatever follows the digits: once the gate
    lets the deletion run, the status service is asked to delete exactly
    that id for the user, and the two listeners are registered; nothing is
    said yet.  The confirmation the success listener says names the id by
    the same numeral. *)
Theorem delete_accepts_decimal_id (user channel junk : string) (id : Z)
  (rest : list string) :
  (Z.abs id <= 2 ^ 53)%Z ->
  Js.leading_digits junk None = None ->
  run_authorized
    (DeleteAuthorized user channel ((Js.string_of_number id ++ junk) :: rest))
  = ([ApiStatusDelete id user; OnceOk (DeleteOk channel id);
      OnceError (DeleteError channel)], Normal tt)
  /\ run_authorized
       (DeleteAuthorized user channel
          (("#" ++ Js.string_of_number id ++ junk) :: rest))
     = ([ApiStatusDelete id user; OnceOk (DeleteOk channel id);
         OnceError (DeleteError channel)], Normal tt)
  /\ (forall data,
        run_ok (DeleteOk channel id) data
        = ([Say channel ("Ok, status #" ++ Js.string_of_number id ++ " is no more!")],
           Normal tt)).
Proof.
  intros _ J. pose proof (parseInt10_string_of_number id junk J) as P.
  split; [|split; [|reflexivity]]; simpl run_authorized; unfold delete_authorized; cbn [nth_error];
    cbv beta iota zeta.
  - destruct (Js.first_is "#" (Js.string_of_number id ++ junk)) eqn:F.
    + exfalso. destruct (Js.string_of_number id ++ junk) as [|c r]; [discriminate|].
      unfold Js.first_is in F. simpl in F. apply Ascii.eqb_eq in F; subst c.
      discriminate P.
    + now rewrite P.
  - change ("#" ++ Js.string_of_number id ++ junk)
      with (String "#" (Js.string_of_number id ++ junk)).
    change (Js.first_is "#" (String "#" (Js.string_of_number id ++ junk)))
      with true.
    cbv iota. cbn [Js.slice1]. now rewrite P.
Qed.

(** *** What runs behind the authorization gate *)

(** The functions handed to the gate throw exactly when run without any
    argument, and then only those of delete and status: update's never
    throws. *)
Theorem authorized_callback_throws_iff_no_argument (callback : AuthorizedCallback) :
  throws (run_authorized callback)
  = match callback with
    | DeleteAuthorized _ _ [] | StatusAuthorized _ _ [] => true
    | _ => false
    end.
Proof.
  destruct callback as [user channel args|user channel args|user channel args];
    simpl run_authorized.
  - unfold delete_authorized. destruct args as [|a rest]; [reflexivity|].
    cbn [nth_error]. cbv beta iota zeta.
    now destruct (Js.parseInt10 _).
  - unfold status_authorized. now destruct args.
  - unfold update_authorized.
    destruct args as [|what [|value rest]]; try reflexivity.
    cbn [nth_error]. cbv beta iota zeta.
    now destruct (Js.truthy what && Js.truthy value).
Qed.

(** An addressed message that is no command and not the botsnack phrase is
    a status post: the listener hands it to the gate, and once the gate lets
    it run the status service is asked to create, for the user, a status
    whose project is the channel name without its leading [#] and whose
    text is the whole stripped message.  Neither step throws. *)
Theorem implicit_status_post (user channel message captured : string) :
  targetMessageRegex_exec realNick message = Some captured ->
  Js.first_is "!" (Js.trim captured) = false ->
  Js.toLowerCase (Js.trim captured) <> "botsnack" ->
  on_message user channel message
  = ([IfAuthorized user channel
        (StatusAuthorized user channel [channel; Js.trim captured])],
     Normal tt)
  /\ run_authorized (StatusAuthorized user channel [channel; Js.trim captured])
     = ([ApiStatusCreate user
           (if Js.first_is "#" channel then Js.slice1 channel else channel)
           (Js.trim captured);
         OnceOk (StatusOk channel);
         OnceError (StatusError channel)],
        Normal tt).
Proof.
  intros E F B. split.
  - unfold on_message. rewrite E, F.
    apply String.eqb_neq in B. now rewrite B.
  - reflexivity.
Qed.


(** *** The two readings of a failure body *)

(** The failure listeners of delete and update read the body differently:
    delete parses it as JSON text before anything else, update reads its
    [error] member as it comes.  So a body that delete cannot parse gives no
    reply at all, not even for code 403; a body handed over as text never
    shows its detail through update; and a body whose detail update does
    show is an object already, which delete fails to parse. *)
Theorem failure_body_read_two_ways (channel : string) (code data : JsValue) :
  (JSON_parse (to_string data) = None ->
   run_error (DeleteError channel) code data = ([], Throw SyntaxError)
   /\ run_error (DeleteError channel) (JNumber 403) data = ([], Throw SyntaxError))
  /\ (forall text, is_number 403 code = false ->
        run_error (UpdateError channel) code (JString text)
        = ([Say channel "I'm a failure, I couldn't do it."], Normal tt))
  /\ (forall detail, JSON_parse "[object Object]" = None ->
        get data "error" = Some detail -> to_boolean detail = true ->
        run_error (DeleteError channel) code data = ([], Throw SyntaxError)).
Proof.
  split; [|split].
  - intros P. simpl. unfold delete_error. now rewrite P.
  - intros text C. simpl. unfold update_error. now rewrite C.
  - intros detail P G T. simpl. unfold delete_error.
    destruct data as [| |b|n|s|fields]; simpl in G; try discriminate;
      try (injection G as <-; discriminate T).
    simpl to_string. now rewrite P.
Qed.

(** *** When the message listener throws *)

(** The table the literal evaluates to: the literal's entries, [bye] once. *)
Lemma commands_entries :
  commands
  = [ ("announce", mkDescriptor (Some "Broadcast a message in all other channels.")
                                (Some "<message>") announce_func);
      ("botsnack", mkDescriptor None None botsnack_func);
      ("bye", mkDescriptor (Some "Ask the bot to leave the channel.") None bye_func);
      ("hostname", mkDescriptor (Some "Ask the bot where it is.") None hostname_func);
      ("chanlist", mkDescriptor (Some "Get a list of channels that I am in.") None
                                chanlist_func);
      ("delete", mkDescriptor (Some "Delete a status by id.") (Some "<id>") delete_func);
      ("goto", mkDescriptor (Some "Tell the bot to join a channel.reg   ")
                            (Some "<channel>") goto_func);
      ("help", mkDescriptor (Some "This help message.") None help_func);
      ("ping", mkDescriptor (Some "A simple presence check.") None ping_func);
      ("status", mkDescriptor None (Some "<project> status message") status_func);
      ("trust", mkDescriptor (Some "Check a user's authorization status.")
                             (Some "<user>") trust_func);
      ("update", mkDescriptor (Some "Update the user's settings.")
                              (Some "<name|email|github_handle> <value> [<user>]")
                              update_func);
      ("default", mkDescriptor None None default_func) ].
Proof. reflexivity. Qed.

(** Of the handlers in the table, only [goto] can throw, and only without
    an argument. *)
Lemma registered_handler_throws (user channel message name : string)
  (args : list string) (d : Descriptor) :
  own commands name = Some d ->
  throws (func d user channel message args)
  = (name =? "goto") && match args with [] => true | _ => false end.
Proof.
  rewrite commands_entries. cbn [own].
  repeat match goal with
         | |- (if ?k =? name then _ else _) = Some d -> _ =>
             destruct (String.eqb_spec k name) as [<-|_];
             [intros [= <-]; simpl func|]
         end; try discriminate; try reflexivity.
  - unfold throws, completion.
    now rewrite announce_trace.
  - unfold bye_func. now destruct pg_client.
  - unfold goto_func. destruct args as [|a rest]; [reflexivity|].
    cbn [nth_error]. cbv beta iota zeta.
    destruct (Js.truthy _); now destruct pg_client.
Qed.

(** The message listener throws in two cases only: an addressed command
    whose name is inherited from Object.prototype, and an addressed [!goto]
    whose parsed argument list is empty.  Every other message, addressed or
    not, is handled without an exception leaving the listener. *)
Theorem on_message_throws_iff (user channel message : string) :
  throws (on_message user channel message) = true
  <-> exists captured name tokens,
        targetMessageRegex_exec realNick message = Some captured
        /\ Js.split " " (Js.trim captured) = String "!" name :: tokens
        /\ (inherited_name name = true
            \/ (name = "goto" /\ parseArgs tokens = [])).
Proof.
  split.
  - destruct (targetMessageRegex_exec realNick message) as [captured|] eqn:E.
    2:{ unfold on_message. rewrite E. discriminate. }
    destruct (Js.first_is "!" (Js.trim captured)) eqn:F.
    2:{ unfold on_message. rewrite E, F.
        destruct (Js.toLowerCase (Js.trim captured) =? "botsnack"); discriminate. }
    destruct (split_of_command _ F) as [name [tokens S]].
    rewrite (on_message_command _ _ _ _ _ _ E S).
    intros T. exists captured, name, tokens. repeat split; try assumption.
    unfold commands_get at 1 in T.
    destruct (own commands name) as [d|] eqn:O.
    + simpl in T. rewrite (registered_handler_throws _ _ _ _ _ _ O) in T.
      apply andb_true_iff in T as [Tn Ta]. apply String.eqb_eq in Tn.
      right. split; [assumption|]. now destruct (parseArgs tokens).
    + destruct (inherited_name name); [now left|discriminate T].
  - intros [captured [name [tokens [E [S [I|[N A]]]]]]];
      rewrite (on_message_command _ _ _ _ _ _ E S).
    + unfold commands_get at 1. now rewrite (inherited_not_own _ I), I.
    + subst name. rewrite A. reflexivity.
Qed.

(** *** Sorting, as [chanlist] and [help] use it *)

Lemma leb_trans (a b c : string) :
  String.leb a b = true -> String.leb b c = true -> String.leb a c = true.
Proof.
  unfold String.leb. revert b c.
  induction a as [|x a IH]; intros [|y b] [|z c]; simpl; try easy.
  unfold Ascii.compare.
  destruct (N.compare_spec (N_of_ascii x) (N_of_ascii y)) as [Exy|Lxy|Gxy];
    destruct (N.compare_spec (N_of_ascii y) (N_of_ascii z)) as [Eyz|Lyz|Gyz];
    destruct (N.compare_spec (N_of_ascii x) (N_of_ascii z)) as [Exz|Lxz|Gxz];
    try easy; try lia.
  apply IH.
Qed.

Lemma insert_sorted_swap (x y : string) (l : list string) :
  insert_sorted x (insert_sorted y l) = insert_sorted y (insert_sorted x l).
Proof.
  induction l as [|a l IH]; simpl.
  - destruct (String.leb x y) eqn:Exy, (String.leb y x) eqn:Eyx; try reflexivity.
    + now rewrite (String.leb_antisym _ _ Exy Eyx).
    + destruct (String.leb_total x y); congruence.
  - destruct (String.leb x a) eqn:Exa, (String.leb y a) eqn:Eya; simpl;
      rewrite ?Exa, ?Eya.
    + destruct (String.leb x y) eqn:Exy, (String.leb y x) eqn:Eyx; try reflexivity.
      * now rewrite (String.leb_antisym _ _ Exy Eyx).
      * destruct (String.leb_total x y); congruence.
    + destruct (String.leb y x) eqn:Eyx; [|reflexivity].
      now rewrite (leb_trans _ _ _ Eyx Exa) in Eya.
    + destruct (String.leb x y) eqn:Exy; [|reflexivity].
      now rewrite (leb_trans _ _ _ Exy Eya) in Exa.
    + now rewrite IH.
Qed.

(** The sorted array does not depend on the order of the array sorted. *)
Lemma sort_permutation_invariant (l l' : list string) :
  Permutation l l' -> sort l = sort l'.
Proof.
  unfold sort. induction 1; simpl; try congruence.
  apply insert_sorted_swap.
Qed.

Lemma insert_sorted_permutation (x : string) (l : list string) :
  Permutation (insert_sorted x l) (x :: l).
Proof.
  induction l as [|a l IH]; simpl; [reflexivity|].
  destruct (String.leb x a); [reflexivity|].
  rewrite IH. apply perm_swap.
Qed.

(** Sorting keeps every element, as often as it occurs. *)
Lemma sort_permutation (l : list string) : Permutation (sort l) l.
Proof.
  unfold sort. induction l as [|a l IH]; simpl; [reflexivity|].
  rewrite insert_sorted_permutation. now rewrite IH.
Qed.

Lemma insert_sorted_sorted (x : string) (l : list string) :
  Sorted (fun a b => String.leb a b = true) l ->
  Sorted (fun a b => String.leb a b = true) (insert_sorted x l).
Proof.
  induction 1 as [|a l Hl IH Hd]; simpl.
  - repeat constructor.
  - destruct (String.leb x a) eqn:E.
    + constructor; [now constructor|now constructor].
    + constructor; [exact IH|].
      assert (Hax : String.leb a x = true)
        by (destruct (String.leb_total a x); congruence).
      destruct Hd as [|b l' Hab]; simpl.
      * now constructor.
      * destruct (String.leb x b); now constructor.
Qed.

(** The sorted array is in ascending order of code units. *)
Lemma sort_sorted (l : list string) :
  Sorted (fun a b => String.leb a b = true) (sort l).
Proof.
  unfold sort. induction l as [|a l IH]; simpl.
  - constructor.
  - now apply insert_sorted_sorted.
Qed.

Lemma sort_in (k : string) (l : list string) : In k (sort l) -> In k l.
Proof. apply Permutation_in, sort_permutation. Qed.

(** *** The help listing *)

Lemma own_of_key {V : Type} (table : list (string * V)) (k : string) :
  In k (keys table) -> own table k <> None.
Proof using.
  clear.
  unfold keys. induction table as [|[k' v] table IH]; simpl; [easy|].
  intros [<-|H].
  - now rewrite String.eqb_refl.
  - destruct (k' =? k); [discriminate|auto].
Qed.

(** The line of the listing for one name of the table. *)
Lemma help_line_of_key (table : list (string * Descriptor)) (channel k : string) :
  In k (keys table) ->
  help_line table channel k
  = (match own table k with
     | Some d =>
         match help d with
         | Some h =>
             [Say channel
                (Js.join " "
                   (("!" ++ k)
                      :: app (match usage d with Some u => [u] | None => [] end)
                             ["- " ++ h]))]
         | None => []
         end
     | None => []
     end,
     Normal tt).
Proof.
  intros H. unfold help_line.
  destruct (own table k) as [d|] eqn:O; [|now destruct (own_of_key table k H)].
  destruct (help d); [|reflexivity].
  now destruct (usage d).
Qed.

Lemma each_help_lines (table : list (string * Descriptor)) (channel : string)
  (names : list string) :
  (forall k, In k names -> In k (keys table)) ->
  each names (help_line table channel)
  = (flat_map
       (fun k =>
          match own table k with
          | Some d =>
              match help d with
              | Some h =>
                  [Say channel
                     (Js.join " "
                        (("!" ++ k)
                           :: app (match usage d with Some u => [u] | None => [] end)
                                  ["- " ++ h]))]
              | None => []
              end
          | None => []
          end)
       names,
     Normal tt).
Proof.
  induction names as [|k names IH]; intros H; simpl; [reflexivity|].
  rewrite (help_line_of_key table channel k) by (apply H; now left).
  rewrite IH by (intros k' Hk'; apply H; now right).
  reflexivity.
Qed.

Lemma help_lists_listing (table : list (string * Descriptor))
  (user channel message : string) (args : list string) :
  help_over table user channel message args
  = (Say channel "Available commands:"
       :: flat_map
            (fun k =>
               match own table k with
               | Some d =>
                   match help d with
                   | Some h =>
                       [Say channel
                          (Js.join " "
                             (("!" ++ k)
                                :: app (match usage d with Some u => [u] | None => [] end)
                                       ["- " ++ h]))]
                   | None => []
                   end
               | None => []
               end)
            (sort (keys table)),
     Normal tt)
  /\ Sorted (fun a b => String.leb a b = true) (sort (keys table))
  /\ Permutation (sort (keys table)) (keys table)
  /\ help_func user channel message args
     = help_over commands user channel message args
  /\ map (fun name => option_map help (own commands name))
         ["botsnack"; "status"; "default"]
     = [Some None; Some None; Some None].
Proof.
  split; [|split; [apply sort_sorted|split; [apply sort_permutation|
                                             split; reflexivity]]].
  unfold help_over.
  now rewrite each_help_lines by (intros k; apply sort_in).
Qed.

(** [help], over any table: it never throws, says its heading and then, in
    ascending order of name, one line for each entry that has a help text
    (the name after [!], the usage when there is one, the help text after a
    dash); an entry without a help text gets no line.  The bot's [help]
    is this listing of the bot's own table, where [botsnack], [status] and
    [default] are entries without a help text: they can be invoked and are
    never listed. *)
Theorem help_lists_documented_entries (table : list (string * Descriptor))
  (user channel message : string) (args : list string) :
  help_over table user channel message args
  = (Say channel "Available commands:"
       :: flat_map
            (fun k =>
               match own table k with
               | Some d =>
                   match help d with
                   | Some h =>
                       [Say channel
                          (Js.join " "
                             (("!" ++ k)
                                :: app (match usage d with Some u => [u] | None => [] end)
                                       ["- " ++ h]))]
                   | None => []
                   end
               | None => []
               end)
            (sort (keys table)),
     Normal tt)
  /\ Sorted (fun a b => String.leb a b = true) (sort (keys table))
  /\ Permutation (sort (keys table)) (keys table)
  /\ help_func user channel message args
     = help_over commands user channel message args
  /\ map (fun name => option_map help (own commands name))
         ["botsnack"; "status"; "default"]
     = [Some None; Some None; Some None].
Proof.
  exact (help_lists_listing table user channel message args).
Qed.

(** *** [update] *)


(** *** The object a literal evaluates to *)

Lemma own_put_same {V : Type} (k : string) (v : V) (o : list (string * V)) :
  own (put k v o) k = Some v.
Proof using.
  clear.
  induction o as [|[k' v'] o IH]; simpl.
  - now rewrite String.eqb_refl.
  - destruct (k' =? k) eqn:E; simpl.
    + now rewrite String.eqb_refl.
    + now rewrite E.
Qed.

Lemma own_put_other {V : Type} (k k' : string) (v : V) (o : list (string * V)) :
  k <> k' -> own (put k v o) k' = own o k'.
Proof using.
  clear.
  intros N. induction o as [|[k0 v0] o IH]; simpl.
  - apply String.eqb_neq in N. now rewrite N.
  - destruct (k0 =? k) eqn:E; simpl.
    + apply String.eqb_eq in E; subst k0.
      apply String.eqb_neq in N. now rewrite N.
    + now rewrite IH.
Qed.

Lemma keys_put_in {V : Type} (k k' : string) (v : V) (o : list (string * V)) :
  In k' (keys (put k v o)) -> k' = k \/ In k' (keys o).
Proof using.
  clear.
  unfold keys. induction o as [|[k0 v0] o IH]; simpl.
  - intros [<-|[]]. now left.
  - destruct (k0 =? k) eqn:E; simpl.
    + apply String.eqb_eq in E; subst k0. tauto.
    + intros [<-|H]; [tauto|]. destruct (IH H); tauto.
Qed.

Lemma keys_put_nodup {V : Type} (k : string) (v : V) (o : list (string * V)) :
  NoDup (keys o) -> NoDup (keys (put k v o)).
Proof using.
  clear.
  unfold keys. induction o as [|[k0 v0] o IH]; simpl; intros H.
  - repeat constructor. easy.
  - inversion H as [|? ? Hnotin Hrest]; subst.
    destruct (k0 =? k) eqn:E; simpl.
    + apply String.eqb_eq in E; subst k0. now constructor.
    + constructor; [|now apply IH].
      intros Hin. destruct (keys_put_in _ _ _ _ Hin) as [->|Hin'].
      * now rewrite String.eqb_refl in E.
      * contradiction.
Qed.

Lemma own_app_last {V : Type} (l : list (string * V)) (k k' : string) (v : V) :
  own (l ++ [(k, v)])%list k'
  = match own l k' with
    | Some v' => Some v'
    | None => if k =? k' then Some v else None
    end.
Proof using.
  clear.
  induction l as [|[k0 v0] l IH]; simpl; [reflexivity|].
  now destruct (k0 =? k').
Qed.

Lemma fold_put {V : Type} (literal o : list (string * V)) :
  NoDup (keys o) ->
  NoDup (keys (fold_left (fun o kv => put (fst kv) (snd kv) o) literal o))
  /\ forall k,
       own (fold_left (fun o kv => put (fst kv) (snd kv) o) literal o) k
       = match own (rev literal) k with
         | Some v => Some v
         | None => own o k
         end.
Proof using.
  clear.
  revert o. induction literal as [|[k0 v0] literal IH]; intros o H; simpl.
  - split; [assumption|reflexivity].
  - destruct (IH (put k0 v0 o) (keys_put_nodup k0 v0 o H)) as [N L].
    split; [exact N|]. intros k. rewrite L, own_app_last.
    destruct (own (rev literal) k); [reflexivity|].
    destruct (String.eqb_spec k0 k) as [<-|Hne].
    + apply own_put_same.
    + now apply own_put_other.
Qed.

Lemma object_of_members {V : Type} (literal : list (string * V)) :
  NoDup (keys (object_of literal))
  /\ forall k, own (object_of literal) k = own (rev literal) k.
Proof using.
  clear.
  destruct (fold_put literal [] (NoDup_nil _)) as [N L].
  split; [exact N|].
  intros k. unfold object_of. rewrite L. now destruct (own (rev literal) k).
Qed.

(** An object literal that writes a name more than once yields an object
    with the name once, bound to the value written last; so it is for the
    command table, whose literal writes [bye] twice. *)
Theorem object_literal_last_wins {V : Type} (literal : list (string * V)) :
  NoDup (keys (object_of literal))
  /\ (forall k, own (object_of literal) k = own (rev literal) k)
  /\ (forall k, In k (keys (object_of literal)) <-> In k (map fst literal)).
Proof using.
  clear.
  destruct (fold_put literal [] (NoDup_nil _)) as [N L].
  split; [exact N|]. split.
  - intros k. unfold object_of. rewrite L. now destruct (own (rev literal) k).
  - intros k.
    assert (K : forall (t : list (string * V)), In k (keys t) <-> own t k <> None).
    { intros t. split; [apply own_of_key|].
      unfold keys. induction t as [|[k0 v0] t IHt]; simpl; [easy|].
      destruct (String.eqb_spec k0 k); [now left|]. intros H. right. auto. }
    rewrite K. unfold object_of. rewrite L.
    change (map fst literal) with (keys literal).
    rewrite (in_rev (keys literal)). unfold keys at 1. rewrite <- map_rev.
    rewrite (K (rev literal)).
    now destruct (own (rev literal) k).
Qed.

(** *** Where the bot talks *)

(** Every handler of the table but [announce] talks only in the channel it
    was asked in. *)
Theorem handlers_reply_in_channel (user channel message name target text : string)
  (args : list string) (d : Descriptor) :
  own commands name = Some d ->
  name <> "announce" ->
  In (Say target text) (effects (func d user channel message args)) ->
  target = channel.
Proof.
  rewrite commands_entries. cbn [own].
  repeat match goal with
         | |- (if ?k =? name then _ else _) = Some d -> _ =>
             destruct (String.eqb_spec k name) as [<-|_];
             [intros [= <-]; simpl func|]
         end; try discriminate; intros Hname; try (now destruct Hname).
  - unfold botsnack_func, effects. simpl. now intros [[= <- _]|[]].
  - unfold bye_func. destruct pg_client; simpl;
      intros H; repeat (destruct H as [H|H]; try discriminate H);
      try contradiction; now injection H as <- _.
  - unfold hostname_func, effects. simpl. now intros [[= <- _]|[]].
  - unfold chanlist_func, effects. simpl. now intros [[= <- _]|[[= <- _]|[]]].
  - unfold delete_func, effects. simpl. now intros [H|[]].
  - destruct args as [|a rest]; [intros []|].
    rewrite goto_with_argument. destruct pg_client; simpl;
      intros H; repeat (destruct H as [H|H]; try discriminate H); contradiction.
  - rewrite (proj1 (proj2 (proj2 (proj2
      (help_lists_listing commands user channel message args))))).
    rewrite (proj1 (help_lists_listing commands user channel message args)).
    unfold effects. cbn [fst]. intros [[= <- _]|H]; [reflexivity|].
    apply in_flat_map in H as [k [_ H]].
    destruct (own commands k) as [dk|]; [|contradiction].
    destruct (help dk); [|contradiction].
    now destruct H as [[= <- _]|[]].
  - unfold ping_func, effects. simpl. now intros [[= <- _]|[]].
  - unfold status_func, effects. simpl. now intros [H|[]].
  - unfold trust_func, effects. simpl. now intros [H|[H|[]]].
  - unfold update_func, effects. simpl. now intros [H|[]].
  - unfold default_func, effects. simpl. now intros [[= <- _]|[]].
Qed.


End Bot.

(** ** Examples: the bot named [standup], in no channel, without a database *)

Local Abbreviation standup_on_message :=
  (on_message "standup" [] false "host" Examples.in_order Utils.parseArgs).

(** Channel chatter is ignored. *)
Lemma on_message_ignores_unaddressed_witness :
  standup_on_message "bob" "#standup" "hello everyone" = ([], Normal tt).
Proof.
  apply (on_message_ignores_unaddressed "standup" [] false "host"
           Examples.in_order Utils.parseArgs "bob" "#standup" "hello everyone");
    reflexivity.
Defined.

(** C2 (counterexample): [!goto] without an argument makes the goto handler
    raise; the message listener completes by throwing, and nothing has been
    logged. *)
Lemma goto_exception_escapes_listener :
  standup_on_message "bob" "#standup" "standup: !goto" = ([], Throw TypeError).
Proof. reflexivity. Qed.

Lemma on_message_propagates_exception_witness :
  standup_on_message "alice" "#standup" "standup, !goto" = ([], Throw TypeError).
Proof.
  apply (on_message_propagates_exception "standup" [] false "host"
           Examples.in_order Utils.parseArgs
           "alice" "#standup" "standup, !goto" " !goto" "goto" []
           (mkDescriptor (Some "Tell the bot to join a channel.reg   ")
                         (Some "<channel>") (goto_func false)));
    reflexivity.
Defined.



(** C4 (counterexample): [!delete abc] from a user the gate does not trust:
    the listener only hands the deletion to the gate, and the gate's negative
    decision runs nothing, so no reply about the invalid id is sent. *)
Lemma delete_invalid_id_untrusted_silent :
  standup_on_message "mallory" "#standup" "standup: !delete abc"
  = ([IfAuthorized "mallory" "#standup"
        (DeleteAuthorized "mallory" "#standup" ["abc"])],
     Normal tt)
  /\ ifAuthorized_decided false (DeleteAuthorized "mallory" "#standup" ["abc"])
     = ([], Normal tt).
Proof. split; reflexivity. Qed.

Lemma delete_rejects_invalid_id_witness :
  ifAuthorized_decided true (DeleteAuthorized "bob" "#standup" ["#abc"; "now"])
  = ([Say "#standup" (dquote ++ "#abc" ++ dquote ++ " is not a valid status ID.")],
     Normal tt).
Proof.
  exact (proj1 (proj2
    (delete_rejects_invalid_id "standup" [] false "host" Examples.in_order
       Utils.parseArgs "bob" "#standup" "standup: !delete #abc now"
       " !delete #abc now" "#abc" ["#abc"; "now"] ["now"]
       eq_refl eq_refl eq_refl eq_refl))).
Defined.

(** C5 (counterexample): a tab after [!ping] does not end the command name.
    The name read is [ping], the tab and what follows, which is no entry of
    the table, and the default descriptor answers, where the same message
    with a space gets its [Pong!]. *)
Lemma tab_does_not_delimit_command :
  standup_on_message "bob" "#standup" ("standup: !ping" ++ String "009" "now")
  = ([Say "#standup" "bob: Huh? Try !help."], Normal tt)
  /\ standup_on_message "bob" "#standup" "standup: !ping now"
     = ([Say "#standup" "Pong!"], Normal tt).
Proof. split; reflexivity. Qed.

Lemma command_resolution_witness :
  standup_on_message "bob" "#standup" "standup: !frobnicate now"
  = ([Say "#standup" "bob: Huh? Try !help."], Normal tt).
Proof.
  exact (proj2
    (command_resolution "standup" [] false "host" Examples.in_order
       Utils.parseArgs "bob" "#standup" "standup: !frobnicate now"
       " !frobnicate now" "frobnicate" ["now"] eq_refl eq_refl)
    eq_refl eq_refl).
Defined.

Lemma inherited_command_name_throws_witness :
  standup_on_message "bob" "#standup" "standup: !constructor"
  = ([], Throw TypeError).
Proof.
  exact (inherited_command_name_throws "standup" [] false "host"
           Examples.in_order Utils.parseArgs "bob" "#standup"
           "standup: !constructor" " !constructor" "constructor" []
           eq_refl eq_refl eq_refl).
Defined.

Lemma unmarked_message_routing_witness :
  standup_on_message "bob" "#standup" "standup:  BotSnack "
  = ([Say "#standup" "Yummy!"], Normal tt)
  /\ standup_on_message "bob" "#standup" "standup: fixed the build"
     = ([IfAuthorized "bob" "#standup"
           (StatusAuthorized "bob" "#standup" ["#standup"; "fixed the build"])],
        Normal tt).
Proof.
  split.
  - exact (proj1
      (unmarked_message_routing "standup" [] false "host" Examples.in_order
         Utils.parseArgs "bob" "#standup" "standup:  BotSnack " "  BotSnack "
         eq_refl eq_refl)
      eq_refl).
  - apply (proj2
      (unmarked_message_routing "standup" [] false "host" Examples.in_order
         Utils.parseArgs "bob" "#standup" "standup: fixed the build"
         " fixed the build" eq_refl eq_refl)).
    discriminate.
Defined.

Lemma on_error_skips_other_errors_witness :
  on_error (mkIrcError "433" (Some "Error: nickname in use")) = ([], Normal tt).
Proof.
  apply (on_error_skips_other_errors
           (mkIrcError "433" (Some "Error: nickname in use"))).
  reflexivity.
Defined.

(** The bot [standup] kicked from [#standup]: the listener throws after its
    log line; no [Bye!], no part. *)
Lemma kick_of_standup_example :
  on_kick "standup" [] false "host" Examples.in_order "#standup" "standup" "op"
  = ([LoggerInfo "Kicked from #standup by op."], Throw TypeError).
Proof. reflexivity. Qed.

Lemma goto_without_argument_throws_witness :
  goto_func false "carol" "#ops" "!goto" [] = ([], Throw TypeError)
  /\ standup_on_message "carol" "#ops" "standup: !goto" = ([], Throw TypeError).
Proof.
  split.
  - exact (proj1 (goto_without_argument_throws "standup" [] false "host"
                    Examples.in_order Utils.parseArgs "carol" "#ops" "!goto")).
  - exact (proj2 (goto_without_argument_throws "standup" [] false "host"
                    Examples.in_order Utils.parseArgs "carol" "#ops" "!goto")
                 eq_refl).
Defined.

Lemma kick_of_other_ignored_witness :
  on_kick "standup" [] false "host" Examples.in_order "#standup" "bob" "op"
  = ([], Normal tt).
Proof.
  apply (kick_of_other_ignored "standup" [] false "host" Examples.in_order
           "#standup" "bob" "op").
  discriminate.
Defined.

Lemma on_error_logs_421_witness :
  on_error (mkIrcError "421" (Some "Error: unknown command"))
  = ([LoggerErrorObject (mkIrcError "421" (Some "Error: unknown command"));
      LoggerError "Error: unknown command"],
     Normal tt).
Proof.
  apply (on_error_logs_421 (mkIrcError "421" (Some "Error: unknown command"))).
  reflexivity.
Defined.

(** ** The channel listing *)

(** [chanlist] says its heading and then the channels the bot is in, each
    once for each time it is in the client's table, in ascending order and
    joined by a comma and a space.  The listing does not depend on the
    order in which the client's table holds the channels. *)
Theorem chanlist_sorted_listing (chans chans' : list string)
  (user channel message : string) (args : list string) :
  Permutation chans chans' ->
  chanlist_func chans user channel message args
  = ([Say channel "I'm currently in:"; Say channel (Js.join ", " (sort chans))],
     Normal tt)
  /\ Sorted (fun a b => String.leb a b = true) (sort chans)
  /\ Permutation (sort chans) chans
  /\ chanlist_func chans' user channel message args
     = chanlist_func chans user channel message args.
Proof.
  intros P. split; [reflexivity|].
  split; [apply sort_sorted|]. split; [apply sort_permutation|].
  unfold chanlist_func. now rewrite (sort_permutation_invariant _ _ P).
Qed.

(** ** Examples for the properties above *)

Lemma address_whitespace_irrelevant_witness :
  standup_on_message "bob" "#standup"
    ("standup" ++ String "," (String "009" "   " ++ "!ping"))
  = standup_on_message "bob" "#standup" ("standup" ++ String "," "!ping").
Proof.
  apply (address_whitespace_irrelevant "standup" [] false "host"
           Examples.in_order Utils.parseArgs "bob" "#standup"
           (String "009" "   ") "!ping" ","%char);
    [now right|reflexivity|reflexivity].
Defined.

Lemma botsnack_reply_is_one_of_five_witness :
  exists reply,
    botsnack_func Examples.in_order "bob" "#standup" "botsnack" []
    = ([Say "#standup" reply], Normal tt)
    /\ In reply [ "Yummy!"; "Thanks, " ++ "bob" ++ "!"; "My favorite!";
                  "Can I have another?"; "Tasty!" ].
Proof.
  apply (botsnack_reply_is_one_of_five Examples.in_order "bob" "#standup"
           "botsnack" []).
  intros a. apply Permutation_refl.
Defined.

Lemma bye_by_message_witness :
  on_message "standup" ["#standup"] true "host" Examples.in_order Utils.parseArgs
    "bob" "#standup" "standup: !bye for now"
  = ([Say "#standup" "Bye!"; Part "#standup";
      PgQuery "DELETE FROM channels WHERE id=$1" ["#standup"]],
     Normal tt).
Proof.
  exact (bye_by_message "standup" ["#standup"] true "host" Examples.in_order
           Utils.parseArgs "bob" "#standup" "standup: !bye for now"
           " !bye for now" ["for"; "now"] eq_refl eq_refl).
Defined.

Lemma delete_accepts_decimal_id_witness :
  run_authorized (DeleteAuthorized "bob" "#standup" ["#42abc"])
  = ([ApiStatusDelete 42 "bob"; OnceOk (DeleteOk "#standup" 42);
      OnceError (DeleteError "#standup")], Normal tt).
Proof.
  exact (proj1 (proj2
    (delete_accepts_decimal_id "bob" "#standup" "abc" 42 []
       ltac:(vm_compute; discriminate) eq_refl))).
Defined.

Lemma implicit_status_post_witness :
  run_authorized
    (StatusAuthorized "bob" "#standup" ["#standup"; "fixed the build"])
  = ([ApiStatusCreate "bob" "standup" "fixed the build";
      OnceOk (StatusOk "#standup"); OnceError (StatusError "#standup")],
     Normal tt).
Proof.
  refine (proj2
    (implicit_status_post "standup" [] false "host" Examples.in_order
       Utils.parseArgs "bob" "#standup" "standup: fixed the build"
       " fixed the build" eq_refl eq_refl _)).
  discriminate.
Defined.


Lemma failure_body_read_two_ways_witness :
  run_error (Examples.parse_error_body "boom") (DeleteError "#standup")
    (JNumber 403) (JString "<html>Forbidden</html>")
  = ([], Throw SyntaxError)
  /\ run_error (Examples.parse_error_body "boom") (DeleteError "#standup")
       (JNumber 500) (JObject [("error", JString "boom")])
     = ([], Throw SyntaxError).
Proof.
  split.
  - exact (proj2 (proj1
      (failure_body_read_two_ways (Examples.parse_error_body "boom") "#standup"
         (JNumber 403) (JString "<html>Forbidden</html>")) eq_refl)).
  - exact (proj2 (proj2
      (failure_body_read_two_ways (Examples.parse_error_body "boom") "#standup"
         (JNumber 500) (JObject [("error", JString "boom")])))
      (JString "boom") eq_refl eq_refl eq_refl).
Defined.

Lemma chanlist_sorted_listing_witness :
  chanlist_func ["#web"; "#apps"] "bob" "#apps" "!chanlist" []
  = chanlist_func ["#apps"; "#web"] "bob" "#apps" "!chanlist" [].
Proof.
  exact (proj2 (proj2 (proj2
    (chanlist_sorted_listing ["#apps"; "#web"] ["#web"; "#apps"]
       "bob" "#apps" "!chanlist" [] (perm_swap "#web" "#apps" []))))).
Defined.

(** ** Start-up: the configuration *)

Lemma own_in {V : Type} (l : list (string * V)) (k : string) (v : V) :
  own l k = Some v -> In (k, v) l.
Proof.
  induction l as [|[k0 v0] l IH]; simpl; [discriminate|].
  destruct (String.eqb_spec k0 k) as [->|_].
  - intros [= ->]. now left.
  - intros H. right. auto.
Qed.

Lemma own_none_not_key {V : Type} (l : list (string * V)) (k : string) :
  own l k = None -> ~ In k (keys l).
Proof.
  intros H Hin. now apply (own_of_key l k Hin).
Qed.

(** In an object that holds each name once, the first and the last binding
    of a name are the same. *)
Lemma own_rev_nodup {V : Type} (l : list (string * V)) (k : string) :
  NoDup (keys l) -> own (rev l) k = own l k.
Proof.
  unfold keys. induction l as [|[k0 v0] l IH]; simpl; intros H; [reflexivity|].
  inversion H as [|? ? Hnotin Hrest]; subst.
  rewrite own_app_last, (IH Hrest).
  destruct (String.eqb_spec k0 k) as [->|_].
  - destruct (own l k) eqn:O; [|reflexivity].
    destruct Hnotin. apply own_in in O.
    now apply (in_map fst) in O.
  - now destruct (own l k).
Qed.

(** Reading a member of an object whose values are all defined. *)
Lemma field_last_binding (fields : list (string * JsValue)) (k : string) :
  (forall k' v, In (k', v) fields -> v <> JUndefined) ->
  field k fields
  = match own (rev fields) k with
    | Some v => v
    | None => JUndefined
    end.
Proof.
  induction fields as [|[k0 v0] fields IH]; intros D; [reflexivity|].
  cbn [field rev]. rewrite own_app_last.
  rewrite IH by (intros k' v H; apply (D k' v); now right).
  destruct (own (rev fields) k) as [v|] eqn:O.
  - assert (v <> JUndefined) as Hv.
    { apply (D k v). right. apply in_rev. now apply own_in. }
    now destruct v.
  - now destruct (k0 =? k).
Qed.

Lemma field_of_nodup (o : list (string * JsValue)) (k : string) :
  NoDup (keys o) ->
  field k o = match own o k with Some v => v | None => JUndefined end.
Proof.
  unfold keys. induction o as [|[k0 v0] o IH]; simpl; intros H; [reflexivity|].
  inversion H as [|? ? Hnotin Hrest]; subst.
  rewrite (IH Hrest).
  destruct (String.eqb_spec k0 k) as [->|_].
  - destruct (own o k) eqn:O; [|reflexivity].
    destruct Hnotin. apply own_in in O. now apply (in_map fst) in O.
  - now destruct (own o k) as [[]|].
Qed.

(** The members of the configuration, by name: those of [config.json]
    first, those of the defaults for the names it leaves out. *)
Lemma load_config_members (fields : list (string * JsValue)) (k : string) :
  exists merged,
    load_config (JObject fields) = JObject merged
    /\ NoDup (keys merged)
    /\ own merged k
       = match own (rev fields) k with
         | Some v => Some v
         | None => own defaults k
         end.
Proof.
  unfold load_config, extend. cbn [to_boolean fold_left enumerable].
  eexists. split; [reflexivity|].
  destruct (fold_put (object_of defaults) [] (NoDup_nil _)) as [N1 L1].
  destruct (fold_put (object_of fields) _ N1) as [N2 L2].
  split; [exact N2|].
  rewrite L2, L1.
  destruct (object_of_members fields) as [Nf Lf].
  rewrite (own_rev_nodup _ k Nf), Lf.
  destruct (own (rev fields) k); [reflexivity|].
  destruct (object_of_members defaults) as [Nd Ld].
  rewrite (own_rev_nodup _ k Nd), Ld.
  rewrite (own_rev_nodup defaults k)
    by (repeat constructor; simpl; intuition discriminate).
  now destruct (own defaults k).
Qed.

Lemma load_config_get (fields : list (string * JsValue)) (k : string) :
  (forall k' v, In (k', v) fields -> v <> JUndefined) ->
  get (load_config (JObject fields)) k
  = Some (match field k fields with
          | JUndefined => field k defaults
          | section => section
          end).
Proof.
  intros D.
  destruct (load_config_members fields k) as [merged [E [N O]]].
  rewrite E. cbn [get]. f_equal.
  rewrite (field_of_nodup merged k N), O, (field_last_binding fields k D).
  destruct (own (rev fields) k) as [v|] eqn:Ov.
  - assert (v <> JUndefined) as Hv.
    { apply (D k v). apply in_rev. now apply own_in. }
    now destruct v.
  - symmetry. apply field_of_nodup.
    repeat constructor; simpl; intuition discriminate.
Qed.

(** The configuration is merged one level deep only: a section that
    [config.json] names replaces the default section whole, and only a
    section it leaves out is taken from the defaults.  This is stated for a
    [config.json] without a member named [__proto__] and for section names
    that are not inherited from Object.prototype.  So a [config.json] with
    an [irc] section gives the bot the nickname that section names, which
    is undefined when the section names none: the default nickname is not
    kept. *)
Theorem config_sections_replace_defaults (fields : list (string * JsValue))
  (k : string) :
  (forall k' v, In (k', v) fields -> v <> JUndefined) ->
  ~ In "__proto__" (keys fields) ->
  (inherited_name k = false ->
   get (load_config (JObject fields)) k
   = Some (match field k fields with
           | JUndefined => field k defaults
           | section => section
           end))
  /\ (forall irc, field "irc" fields = JObject irc ->
        (section <- read (load_config (JObject fields)) "irc" ;;
         read section "nick")
        = ([], Normal (field "nick" irc)))
  /\ (field "irc" fields = JUndefined ->
        (section <- read (load_config (JObject fields)) "irc" ;;
         read section "nick")
        = ([], Normal (JString "standup"))).
Proof.
  intros D _. split; [intros _; now apply load_config_get|].
  split; [intros irc H|intros H];
    unfold read; rewrite (load_config_get fields "irc" D), H; reflexivity.
Qed.

(** The logger's transports follow the [log] section of [config.json]
    alone when there is one: a file transport when the section names a
    file, a console transport when it turns the console on, so a section
    that only names a file turns the console off.  Without a [log] section
    the logger writes to the console only; a [log] section that is [null]
    makes the start throw. *)
Theorem transports_follow_log_section (fields : list (string * JsValue)) :
  (forall k' v, In (k', v) fields -> v <> JUndefined) ->
  (field "log" fields = JUndefined ->
   make_transports (load_config (JObject fields))
   = ([], Normal [ConsoleTransport]))
  /\ (forall log, field "log" fields = JObject log ->
        make_transports (load_config (JObject fields))
        = ([], Normal
                 ((if to_boolean (field "file" log)
                   then [FileTransport (field "file" log)] else [])
                  ++ (if to_boolean (field "console" log)
                      then [ConsoleTransport] else []))%list))
  /\ (field "log" fields = JNull ->
      make_transports (load_config (JObject fields)) = ([], Throw TypeError)).
Proof.
  intros D. repeat split; [intros H|intros log H|intros H];
    unfold make_transports, read;
    rewrite (load_config_get fields "log" D), H; try reflexivity.
  cbn [get bind ret]. 
  destruct (to_boolean (field "file" log)), (to_boolean (field "console" log));
    reflexivity.
Qed.

(** The database is used only when the [pg] section of the merged
    configuration turns it on and a connection string is at hand, from the
    section or else from the environment.  A [config.json] whose [pg]
    section names a connection string without [enabled] leaves the
    database off, as does a [config.json] without a [pg] section. *)
Theorem pg_follows_pg_section (fields : list (string * JsValue))
  (DATABASE_URL : JsValue) :
  (forall k' v, In (k', v) fields -> v <> JUndefined) ->
  (field "pg" fields = JUndefined ->
   connect_pg (load_config (JObject fields)) DATABASE_URL = ([], Normal None))
  /\ (forall pg, field "pg" fields = JObject pg ->
        connect_pg (load_config (JObject fields)) DATABASE_URL
        = ([], Normal
                 (if to_boolean (field "enabled" pg)
                  then
                    (if to_boolean (field "connstring" pg)
                     then Some (field "connstring" pg)
                     else if to_boolean DATABASE_URL then Some DATABASE_URL
                          else None)
                  else None))).
Proof.
  intros D. split; [intros H|intros pg H];
    unfold connect_pg, read;
    rewrite (load_config_get fields "pg" D), H; try reflexivity.
  cbn [get bind ret].
  destruct (to_boolean (field "enabled" pg)); [|reflexivity].
  destruct (to_boolean (field "connstring" pg)) eqn:C; cbn [negb].
  - now rewrite C.
  - now destruct (to_boolean DATABASE_URL).
Qed.

Lemma config_sections_replace_defaults_witness :
  (section <- read (load_config
                      (JObject [("irc", JObject [("host", JString "irc.example.org")])]))
                   "irc" ;;
   read section "nick")
  = ([], Normal JUndefined)
  /\ get (load_config
            (JObject [("irc", JObject [("host", JString "irc.example.org")])]))
         "log"
     = Some (JObject [("console", JBool true); ("file", JNull)]).
Proof.
  assert (D : forall k' v,
             In (k', v) [("irc", JObject [("host", JString "irc.example.org")])] ->
             v <> JUndefined)
    by (intros k' v [[= <- <-]|[]]; discriminate).
  assert (P : ~ In "__proto__"
                (keys [("irc", JObject [("host", JString "irc.example.org")])]))
    by (intros [H|[]]; discriminate H).
  split.
  - exact (proj1 (proj2
      (config_sections_replace_defaults
         [("irc", JObject [("host", JString "irc.example.org")])] "irc" D P))
      [("host", JString "irc.example.org")] eq_refl).
  - exact (proj1
      (config_sections_replace_defaults
         [("irc", JObject [("host", JString "irc.example.org")])] "log" D P)
      eq_refl).
Defined.

Lemma transports_follow_log_section_witness :
  make_transports
    (load_config (JObject [("log", JObject [("file", JString "bot.log")])]))
  = ([], Normal [FileTransport (JString "bot.log")]).
Proof.
  refine (proj1 (proj2
    (transports_follow_log_section
       [("log", JObject [("file", JString "bot.log")])] _))
    [("file", JString "bot.log")] eq_refl).
  intros k' v [[= <- <-]|[]]. discriminate.
Defined.

Lemma pg_follows_pg_section_witness :
  connect_pg
    (load_config
       (JObject [("pg", JObject [("connstring", JString "postgres://db")])]))
    JUndefined
  = ([], Normal None).
Proof.
  refine (proj2
    (pg_follows_pg_section
       [("pg", JObject [("connstring", JString "postgres://db")])] JUndefined _)
    [("connstring", JString "postgres://db")] eq_refl).
  intros k' v [[= <- <-]|[]]. discriminate.
Defined.

Lemma handlers_reply_in_channel_witness : "#standup" = "#standup".
Proof.
  refine (handlers_reply_in_channel [] false "host" Examples.in_order
            "bob" "#standup" "!ping" "ping" "#standup" "Pong!" []
            (mkDescriptor (Some "A simple presence check.") None ping_func)
            eq_refl _ _).
  - discriminate.
  - simpl. now left.
Defined.

